(** * whop-update: the Telegram signal bot (bot/telegram-bot.ts)

    A shallow embedding of the message classifier [isValidSignalMessage],
    the forwarder [forwardToWebsite], the dispatcher [processMessage] and
    the Telegraf handlers of bot/telegram-bot.ts, with the properties the
    specification states about them. *)

From Stdlib Require Import List NArith ZArith Bool Lia String Ascii.
From Stdlib Require DecimalString.
Import ListNotations.

Set Implicit Arguments.

(* ================================================================== *)
(** ** JavaScript strings *)

(** A JavaScript string is a sequence of UTF-16 code units. *)
Module JS.

Definition code_unit := N.
Definition jsstring := list code_unit.

(** The code units of an ASCII literal of the source. *)
Definition units (s : string) : jsstring :=
  map N_of_ascii (list_ascii_of_string s).

Fixpoint eqb (a b : jsstring) : bool :=
  match a, b with
  | [], [] => true
  | x :: a', y :: b' => N.eqb x y && eqb a' b'
  | _, _ => false
  end.

(** [s.startsWith(p)] *)
Fixpoint starts_with (p s : jsstring) : bool :=
  match p, s with
  | [], _ => true
  | x :: p', y :: s' => N.eqb x y && starts_with p' s'
  | _ :: _, [] => false
  end.

(** [s.replace(pat, rep)] with a string pattern: only the first
    occurrence of [pat] is replaced. *)
Fixpoint replace (pat rep s : jsstring) : jsstring :=
  if starts_with pat s then rep ++ skipn (List.length pat) s
  else match s with
       | [] => []
       | c :: s' => c :: replace pat rep s'
       end.

(** [n.toString()] for an integral number (chat identifiers are integers
    far below 2^53, which print in plain decimal). *)
Definition toString (n : Z) : jsstring :=
  units (DecimalString.NilZero.string_of_int (Z.to_int n)).

(** A string is truthy when it is not empty. *)
Definition truthy (s : jsstring) : bool :=
  match s with [] => false | _ :: _ => true end.

End JS.

Import JS.

(* ================================================================== *)
(** ** Regular expressions

    The fragment of ECMAScript patterns that the classifier uses, all
    under the [i] flag and without the [u] flag: pattern characters, the
    class escapes [\d], [\w], [\s], bracket classes, sequence,
    disjunction, and the quantifiers [*], [+] and [?]. *)
Module RegExp.

(** *** Character matchers *)

Definition in_range (lo hi c : N) : bool := N.leb lo c && N.leb c hi.

Definition is_digit (c : code_unit) : bool := in_range 48 57 c.

Definition is_upper (c : code_unit) : bool := in_range 65 90 c.
Definition is_lower (c : code_unit) : bool := in_range 97 122 c.

(** [\w] is [A-Za-z0-9_]. *)
Definition is_word (c : code_unit) : bool :=
  is_upper c || is_lower c || is_digit c || N.eqb c 95.

(** [\s] is WhiteSpace together with LineTerminator: TAB, LF, VT, FF,
    CR, SP, NBSP, U+1680, U+2000..U+200A, LS, PS, U+202F, U+205F,
    U+3000 and the byte order mark. *)
Definition is_space (c : code_unit) : bool :=
  in_range 9 13 c || N.eqb c 32 || N.eqb c 160 || N.eqb c 5760 ||
  in_range 8192 8202 c || N.eqb c 8232 || N.eqb c 8233 ||
  N.eqb c 8239 || N.eqb c 8287 || N.eqb c 12288 || N.eqb c 65279.

(** Canonicalize of the [i] flag without [u]: a code unit is compared
    through its upper-case form.  A unit of 128 or more is never mapped
    below 128, and every pattern character of the classifier is ASCII,
    so only the folding of the ASCII letters takes part in a
    comparison. *)
Definition canonicalize (c : code_unit) : code_unit :=
  if is_lower c then (c - 32)%N else c.

(** The members of a character set. *)
Inductive atom : Type :=
| Chr (c : code_unit)      (* a pattern character *)
| Digit                    (* \d *)
| Word                     (* \w *)
| Space.                   (* \s *)

Definition atom_test (ch : code_unit) (a : atom) : bool :=
  match a with
  | Chr c => N.eqb (canonicalize c) (canonicalize ch)
  | Digit => is_digit ch
  | Word => is_word ch
  | Space => is_space ch
  end.

Definition member (cls : list atom) (ch : code_unit) : bool :=
  existsb (atom_test ch) cls.

(** *** Patterns *)

Inductive regex : Type :=
| Void                          (* matches nothing *)
| Eps                           (* the empty pattern *)
| One (cls : list atom)         (* one character out of a set *)
| Seq (r1 r2 : regex)
| Alt (r1 r2 : regex)
| Star (r : regex).

Definition Plus (r : regex) : regex := Seq r (Star r).
Definition Opt (r : regex) : regex := Alt r Eps.

(** The strings a pattern matches as a whole. *)
Inductive matches : regex -> jsstring -> Prop :=
| MEps : matches Eps []
| MOne cls c : member cls c = true -> matches (One cls) [c]
| MSeq r1 r2 s1 s2 :
    matches r1 s1 -> matches r2 s2 -> matches (Seq r1 r2) (s1 ++ s2)
| MAltL r1 r2 s : matches r1 s -> matches (Alt r1 r2) s
| MAltR r1 r2 s : matches r2 s -> matches (Alt r1 r2) s
| MStarNil r : matches (Star r) []
| MStarApp r s1 s2 :
    matches r s1 -> matches (Star r) s2 -> matches (Star r) (s1 ++ s2).

(** *** An executable matcher, by derivatives *)

Fixpoint nullable (r : regex) : bool :=
  match r with
  | Void => false
  | Eps => true
  | One _ => false
  | Seq r1 r2 => nullable r1 && nullable r2
  | Alt r1 r2 => nullable r1 || nullable r2
  | Star _ => true
  end.

Fixpoint deriv (c : code_unit) (r : regex) : regex :=
  match r with
  | Void => Void
  | Eps => Void
  | One cls => if member cls c then Eps else Void
  | Seq r1 r2 =>
      if nullable r1 then Alt (Seq (deriv c r1) r2) (deriv c r2)
      else Seq (deriv c r1) r2
  | Alt r1 r2 => Alt (deriv c r1) (deriv c r2)
  | Star r1 => Seq (deriv c r1) (Star r1)
  end.

(** Does the pattern match some prefix of [s]? *)
Fixpoint match_here (r : regex) (s : jsstring) : bool :=
  nullable r ||
  match s with
  | [] => false
  | c :: s' => match_here (deriv c r) s'
  end.

(** [re.test(s)] for a pattern without the [g] and [y] flags: a match
    is looked for at every start index of [s]. *)
Fixpoint test (r : regex) (s : jsstring) : bool :=
  match_here r s ||
  match s with
  | [] => false
  | _ :: s' => test r s'
  end.

(** *** Building blocks of the classifier's patterns *)

(** A run of pattern characters. *)
Definition lit (w : string) : regex :=
  fold_right (fun c r => Seq (One [Chr c]) r) Eps (units w).

(** [\s*] *)
Definition ws : regex := Star (One [Space]).

(** [\w+] *)
Definition word : regex := Plus (One [Word]).

(** [\d+] *)
Definition digits : regex := Plus (One [Digit]).

(** [[\d.]+] *)
Definition number : regex := Plus (One [Digit; Chr 46%N]).

End RegExp.

Import RegExp.

(* ================================================================== *)
(** ** The pattern classifier *)
Module Classifier.

Declare Scope regex_scope.
Delimit Scope regex_scope with re.
Infix "+++" := Seq (at level 61, right associativity) : regex_scope.
Local Open Scope regex_scope.

(** [/script\s*:\s*\w+/i] *)
Definition re_script : regex :=
  lit "script" +++ ws +++ lit ":" +++ ws +++ word.

(** [/position\s*:\s*(BUY|SELL)/i] *)
Definition re_position : regex :=
  lit "position" +++ ws +++ lit ":" +++ ws +++ Alt (lit "BUY") (lit "SELL").

(** [/enter\s*price\s*:\s*[\d.]+/i] *)
Definition re_enter_price : regex :=
  lit "enter" +++ ws +++ lit "price" +++ ws +++ lit ":" +++ ws +++ number.

(** [/take\s*profit\s*1\s*:\s*[\d.]+/i] *)
Definition re_take_profit_1 : regex :=
  lit "take" +++ ws +++ lit "profit" +++ ws +++ lit "1" +++ ws +++
  lit ":" +++ ws +++ number.

(** [/stoploss\s*:\s*[\d.]+/i] *)
Definition re_stoploss : regex :=
  lit "stoploss" +++ ws +++ lit ":" +++ ws +++ number.

(** [/take\s*profit\s*\d+\s*from\s*(long|short)\s*signal/i] *)
Definition re_tp_from : regex :=
  lit "take" +++ ws +++ lit "profit" +++ ws +++ digits +++ ws +++
  lit "from" +++ ws +++ Alt (lit "long") (lit "short") +++ ws +++
  lit "signal".

(** [/price\s*:\s*[\d.]+\s*in\s*\w+/i] *)
Definition re_price_in : regex :=
  lit "price" +++ ws +++ lit ":" +++ ws +++ number +++ ws +++
  lit "in" +++ ws +++ word.

(** The second pattern of the take-profit family: [re_price_in] behind
    the optional non-capturing group [(?: at \s* )?]. *)
Definition re_at_price_in : regex :=
  Opt (lit "at" +++ ws) +++ re_price_in.

(** [/hit\s*sl\s*from\s*(long|short)\s*signal/i] *)
Definition re_hit_sl : regex :=
  lit "hit" +++ ws +++ lit "sl" +++ ws +++ lit "from" +++ ws +++
  Alt (lit "long") (lit "short") +++ ws +++ lit "signal".

Definition isNewSignal (text : jsstring) : bool :=
  test re_script text &&
  test re_position text &&
  test re_enter_price text &&
  test re_take_profit_1 text &&
  test re_stoploss text.

Definition isTpUpdate (text : jsstring) : bool :=
  test re_tp_from text && test re_at_price_in text.

Definition isSlHit (text : jsstring) : bool :=
  test re_hit_sl text && test re_price_in text.

Definition isValidSignalMessage (text : jsstring) : bool :=
  isNewSignal text || isTpUpdate text || isSlHit text.

End Classifier.

Import Classifier.

(* ================================================================== *)
(** ** The forwarder, the dispatcher and the handlers *)
Module Bot.

(** *** Configuration, read once at start-up *)
Record config : Type := {
  SOURCE_CHANNEL_ID : jsstring;
  WEBSITE_API_URL : jsstring;
  INGEST_API_KEY : jsstring
}.

(** *** JSON values, as [response.json()] yields them *)
#[local] Unset Elimination Schemes.
Inductive json : Type :=
| JNull
| JBool (b : bool)
| JNumber (mantissa exponent : Z)
| JString (s : jsstring)
| JArray (items : list json)
| JObject (members : list (jsstring * json)).
#[local] Set Elimination Schemes.

(** *** Exceptions inside the [try] block of the forwarder *)
Inductive error : Type :=
| NetworkError      (* [fetch] rejects: the endpoint is unreachable *)
| SyntaxError       (* [response.json()] rejects: the body is not JSON *)
| TypeError.        (* a property of [null], or ToString of an object *)

Inductive result (A : Type) : Type :=
| Ok (a : A)
| Thrown (e : error).
Arguments Ok {A} a.
Arguments Thrown {A} e.

Definition bind {A B : Type} (m : result A) (k : A -> result B) : result B :=
  match m with
  | Ok a => k a
  | Thrown e => Thrown e
  end.

Notation "x <- m ;; k" := (bind m (fun x => k))
  (at level 62, m at next level, right associativity).

(** What the network does with one POST to the ingestion endpoint. *)
Inductive body : Type :=
| Malformed                  (* the response body is not JSON *)
| Wellformed (data : json).

Inductive network : Type :=
| Unreachable                (* no response at all *)
| Responds (b : body).

Definition fetch (net : network) : result body :=
  match net with
  | Unreachable => Thrown NetworkError
  | Responds b => Ok b
  end.

Definition response_json (b : body) : result json :=
  match b with
  | Malformed => Thrown SyntaxError
  | Wellformed data => Ok data
  end.

(** The member list of a parsed object is kept in source order; when a
    name is repeated the last member is the one the object holds. *)
Fixpoint lookup (key : jsstring) (members : list (jsstring * json))
  : option json :=
  match members with
  | [] => None
  | (k, v) :: rest =>
      match lookup key rest with
      | Some v' => Some v'
      | None => if JS.eqb k key then Some v else None
      end
  end.

(** [data.status]: [None] stands for [undefined].  Reading a property
    from [null] throws; a boolean, number, string or array has no
    property of that name. *)
Definition get_status (data : json) : result (option json) :=
  match data with
  | JNull => Thrown TypeError
  | JObject members => Ok (lookup (units "status") members)
  | _ => Ok None
  end.

(** [v === 'literal'] *)
Definition strict_equals (v : option json) (literal : string) : bool :=
  match v with
  | Some (JString s) => JS.eqb s (units literal)
  | _ => false
  end.

(** *** Console lines *)
Inductive log_line : Type :=
| SignalForwarded (data : json)    (* console.log, names data.signal?.script *)
| IgnoredByParser                  (* console.log *)
| ApiError (data : json)           (* console.error *)
| FailedToForward (e : error)      (* console.error *)
| IgnoredNonSignal (ignored : N)   (* console.log *)
| Stats (received forwarded ignored : N).   (* console.log *)

(** Lines written with [console.error]. *)
Definition is_error_line (l : log_line) : bool :=
  match l with
  | ApiError _ | FailedToForward _ => true
  | _ => false
  end.

Definition is_stats_line (l : log_line) : bool :=
  match l with
  | Stats _ _ _ => true
  | _ => false
  end.

(** *** Outbound requests and replies *)
Record request : Type := {
  url : jsstring;
  authorization : jsstring;
  payload_message : jsstring
}.

Inductive reply : Type :=
| StartReply (received forwarded ignored : N)
| StatsReply (received forwarded ignored : N) (forwarding_to : jsstring)
| TestingReply
| TestForwardedReply
| TestFailedReply.

(** *** Process state: the three counters and the observable output

    The counters start at zero and only ever grow by one; JavaScript
    numbers are exact on such integers up to 2^53, far beyond any run of
    the bot, so they are kept as natural numbers. *)
Record state : Type := {
  messagesReceived : N;
  messagesForwarded : N;
  messagesIgnored : N;
  console : list log_line;
  requests : list request;
  replies : list reply
}.

Definition initial_state : state :=
  {| messagesReceived := 0; messagesForwarded := 0; messagesIgnored := 0;
     console := []; requests := []; replies := [] |}.

Definition incr_received (st : state) : state :=
  {| messagesReceived := messagesReceived st + 1;
     messagesForwarded := messagesForwarded st;
     messagesIgnored := messagesIgnored st;
     console := console st; requests := requests st; replies := replies st |}.

Definition incr_forwarded (st : state) : state :=
  {| messagesReceived := messagesReceived st;
     messagesForwarded := messagesForwarded st + 1;
     messagesIgnored := messagesIgnored st;
     console := console st; requests := requests st; replies := replies st |}.

Definition incr_ignored (st : state) : state :=
  {| messagesReceived := messagesReceived st;
     messagesForwarded := messagesForwarded st;
     messagesIgnored := messagesIgnored st + 1;
     console := console st; requests := requests st; replies := replies st |}.

Definition log (lines : list log_line) (st : state) : state :=
  {| messagesReceived := messagesReceived st;
     messagesForwarded := messagesForwarded st;
     messagesIgnored := messagesIgnored st;
     console := console st ++ lines;
     requests := requests st; replies := replies st |}.

Definition post (r : request) (st : state) : state :=
  {| messagesReceived := messagesReceived st;
     messagesForwarded := messagesForwarded st;
     messagesIgnored := messagesIgnored st;
     console := console st;
     requests := requests st ++ [r]; replies := replies st |}.

Definition send_reply (r : reply) (st : state) : state :=
  {| messagesReceived := messagesReceived st;
     messagesForwarded := messagesForwarded st;
     messagesIgnored := messagesIgnored st;
     console := console st;
     requests := requests st; replies := replies st ++ [r] |}.

(** *** forwardToWebsite *)

Definition ingest_request (cfg : config) (text : jsstring) : request :=
  {| url := WEBSITE_API_URL cfg ++ units "/api/signals/ingest";
     authorization := units "Bearer " ++ INGEST_API_KEY cfg;
     payload_message := text |}.

(** [data.signal?.script]: the optional chain stops at a missing or
    [null] signal; a signal that is no object has no such property. *)
Definition signal_script (data : json) : option json :=
  match data with
  | JObject members =>
      match lookup (units "signal") members with
      | Some (JObject inner) => lookup (units "script") inner
      | _ => None
      end
  | _ => None
  end.

(** ToString of a parsed value fails on an object that has a member
    named toString of its own (no JSON value is callable, and the
    inherited valueOf yields the object again), and on an array one of
    whose elements fails: join prints each element but null. *)
Fixpoint to_string_fails (v : json) : bool :=
  match v with
  | JObject members =>
      match lookup (units "toString") members with
      | Some _ => true
      | None => false
      end
  | JArray items => existsb to_string_fails items
  | _ => false
  end.

(** The template literal of the success line, [data.signal?.script ||
    'Update'] turned into a string.  A falsy script gives way to
    'Update'; every other primitive prints; objects and arrays are
    truthy and go through ToString. *)
Definition success_label (data : json) : result unit :=
  match signal_script data with
  | Some v => if to_string_fails v then Thrown TypeError else Ok tt
  | None => Ok tt
  end.

(** The [try] block: the verdict and the line it logs, or the exception
    it throws. *)
Definition forward_attempt (net : network) : result (bool * log_line) :=
  response <- fetch net ;;
  data <- response_json response ;;
  status <- get_status data ;;
  if strict_equals status "success" then
    _ <- success_label data ;;
    Ok (true, SignalForwarded data)
  else if strict_equals status "ignored" then Ok (false, IgnoredByParser)
  else Ok (false, ApiError data).

(** The whole function: the [catch] clause turns every exception into
    [false]. *)
Definition forward_outcome (net : network) : bool * log_line :=
  match forward_attempt net with
  | Ok r => r
  | Thrown e => (false, FailedToForward e)
  end.

Definition forwardToWebsite (cfg : config) (text : jsstring) (net : network)
  (st : state) : bool * state :=
  let st1 := post (ingest_request cfg text) st in
  let (success, line) := forward_outcome net in
  (success, log [line] st1).

(** *** processMessage *)
Definition processMessage (cfg : config) (text : jsstring) (net : network)
  (st : state) : state :=
  let st1 := incr_received st in
  if negb (isValidSignalMessage text) then
    let st2 := incr_ignored st1 in
    log [IgnoredNonSignal (messagesIgnored st2)] st2
  else
    let (success, st2) := forwardToWebsite cfg text net st1 in
    let st3 := if success then incr_forwarded st2 else st2 in
    if N.eqb (messagesReceived st3 mod 10) 0 then
      log [Stats (messagesReceived st3) (messagesForwarded st3)
                 (messagesIgnored st3)] st3
    else st3.

(** *** The handlers *)

(** A message delivered to the [message('text')] handler. *)
Record text_message : Type := {
  chat_id : Z;                     (* ctx.chat.id *)
  forward_from_chat : option Z;    (* ctx.message.forward_from_chat?.id *)
  text : jsstring                  (* ctx.message.text *)
}.

(** A message delivered to the [message('forward_date')] handler; its
    text may be missing. *)
Record forwarded_message : Type := {
  fwd_chat_id : Z;
  fwd_from_chat : option Z;
  fwd_text : option jsstring
}.

(** The test of the first [if] inside the source-channel guard. *)
Definition chat_mismatch (cfg : config) (m : text_message) : bool :=
  let chatId := JS.toString (chat_id m) in
  negb (JS.eqb chatId (SOURCE_CHANNEL_ID cfg)) &&
  negb (JS.eqb chatId
          (JS.replace (units "-100") (units "-") (SOURCE_CHANNEL_ID cfg))).

(** The test of the second [if] inside the source-channel guard. *)
Definition forward_mismatch (cfg : config) (m : text_message) : bool :=
  match forward_from_chat m with
  | None => true
  | Some id =>
      negb (JS.eqb (JS.toString id)
              (JS.replace (units "-100") (units "") (SOURCE_CHANNEL_ID cfg)))
  end.

(** [bot.on(message('text'), ...)] *)
Definition onText (cfg : config) (m : text_message) (net : network)
  (st : state) : state :=
  if JS.truthy (SOURCE_CHANNEL_ID cfg) then
    if chat_mismatch cfg m then
      if forward_mismatch cfg m then st
      else processMessage cfg (text m) net st
    else processMessage cfg (text m) net st
  else processMessage cfg (text m) net st.

(** [bot.on(message('forward_date'), ...)] *)
Definition onForwardDate (cfg : config) (m : forwarded_message)
  (net : network) (st : state) : state :=
  match fwd_text m with
  | Some t => if JS.truthy t then processMessage cfg t net st else st
  | None => st
  end.

(** [bot.command('start', ...)] *)
Definition onStart (st : state) : state :=
  send_reply (StartReply (messagesReceived st) (messagesForwarded st)
                         (messagesIgnored st)) st.

(** [bot.command('stats', ...)] *)
Definition onStats (cfg : config) (st : state) : state :=
  send_reply (StatsReply (messagesReceived st) (messagesForwarded st)
                         (messagesIgnored st) (WEBSITE_API_URL cfg)) st.

Definition newline : string := String (ascii_of_nat 10) EmptyString.

Definition testMessage : jsstring :=
  units ("script          : BTCUSD" ++ newline ++
         "Position        : BUY" ++ newline ++
         "Enter Price     : 90827.56" ++ newline ++
         "Take Profit 1   : 91528.57" ++ newline ++
         "Take Profit 2   : 91995.90" ++ newline ++
         "Take Profit 3   : 92696.91" ++ newline ++
         "Take Profit 4   : 93631.58" ++ newline ++
         "Stoploss        : 89659.22")%string.

(** [bot.command('test', ...)] *)
Definition onTest (cfg : config) (net : network) (st : state) : state :=
  let st1 := send_reply TestingReply st in
  let (success, st2) := forwardToWebsite cfg testMessage net st1 in
  send_reply (if success then TestForwardedReply else TestFailedReply) st2.

(** *** The dispatcher: one update after the other

    Each update is handled to completion before the next one; an update
    that reaches the forwarder comes with what the network does with its
    request.  Here every handler can be reached by an update of its
    kind, which is more than the registration order of the handlers
    lets through (see [Program] below): what holds of every [run] holds
    of the program. *)
Inductive update : Type :=
| TextMessage (m : text_message)
| ForwardedMessage (m : forwarded_message)
| StartCommand
| StatsCommand
| TestCommand.

Definition handle (cfg : config) (st : state) (u : update * network) : state :=
  match u with
  | (TextMessage m, net) => onText cfg m net st
  | (ForwardedMessage m, net) => onForwardDate cfg m net st
  | (StartCommand, _) => onStart st
  | (StatsCommand, _) => onStats cfg st
  | (TestCommand, net) => onTest cfg net st
  end.

Definition run (cfg : config) (updates : list (update * network)) : state :=
  fold_left (handle cfg) updates initial_state.

End Bot.

Import Bot.

(* ================================================================== *)
(** ** The handlers as the event loop runs them

    [processMessage] and the test command are [async]: each runs up to
    its [await] of the forwarder's request, and goes on when the
    response is there.  In between the event loop may start or resume
    other handlers. *)
Module Async.

(** [processMessage] up to the request of [forwardToWebsite]; [true]
    when the call is left suspended on it. *)
Definition start_processing (cfg : config) (text : jsstring) (st : state)
  : state * bool :=
  let st1 := incr_received st in
  if negb (isValidSignalMessage text) then
    let st2 := incr_ignored st1 in
    (log [IgnoredNonSignal (messagesIgnored st2)] st2, false)
  else (post (ingest_request cfg text) st1, true).

(** The rest of [processMessage], once the network has answered. *)
Definition finish_processing (net : network) (st : state) : state :=
  let (success, line) := forward_outcome net in
  let st2 := log [line] st in
  let st3 := if success then incr_forwarded st2 else st2 in
  if N.eqb (messagesReceived st3 mod 10) 0 then
    log [Stats (messagesReceived st3) (messagesForwarded st3)
               (messagesIgnored st3)] st3
  else st3.

(** The test command up to the request, and after it. *)
Definition start_test (cfg : config) (st : state) : state :=
  post (ingest_request cfg testMessage) (send_reply TestingReply st).

Definition finish_test (net : network) (st : state) : state :=
  let (success, line) := forward_outcome net in
  send_reply (if success then TestForwardedReply else TestFailedReply)
    (log [line] st).

(** The process state together with the number of suspended calls. *)
Record world : Type := {
  now : state;
  suspended_messages : nat;
  suspended_tests : nat
}.

Definition initial_world : world :=
  {| now := initial_state; suspended_messages := 0; suspended_tests := 0 |}.

(** An update arrives and its handler runs up to its first [await]. *)
Definition arrive (cfg : config) (u : update) (w : world) : world :=
  let process (t : jsstring) :=
    let (st, waits) := start_processing cfg t (now w) in
    {| now := st;
       suspended_messages :=
         if waits then S (suspended_messages w) else suspended_messages w;
       suspended_tests := suspended_tests w |} in
  let stay (st : state) :=
    {| now := st; suspended_messages := suspended_messages w;
       suspended_tests := suspended_tests w |} in
  match u with
  | TextMessage m =>
      if JS.truthy (SOURCE_CHANNEL_ID cfg) then
        if chat_mismatch cfg m then
          if forward_mismatch cfg m then w else process (text m)
        else process (text m)
      else process (text m)
  | ForwardedMessage m =>
      match fwd_text m with
      | Some t => if JS.truthy t then process t else w
      | None => w
      end
  | StartCommand => stay (onStart (now w))
  | StatsCommand => stay (onStats cfg (now w))
  | TestCommand =>
      {| now := start_test cfg (now w);
         suspended_messages := suspended_messages w;
         suspended_tests := S (suspended_tests w) |}
  end.

(** One turn of the event loop. *)
Inductive turn (cfg : config) : world -> world -> Prop :=
| Arrives (u : update) (w : world) :
    turn cfg w (arrive cfg u w)
| MessageResumes (net : network) (st : state) (n k : nat) :
    turn cfg
      {| now := st; suspended_messages := S n; suspended_tests := k |}
      {| now := finish_processing net st; suspended_messages := n;
         suspended_tests := k |}
| TestResumes (net : network) (st : state) (n k : nat) :
    turn cfg
      {| now := st; suspended_messages := n; suspended_tests := S k |}
      {| now := finish_test net st; suspended_messages := n;
         suspended_tests := k |}.

Inductive reachable (cfg : config) : world -> Prop :=
| AtStart : reachable cfg initial_world
| AfterTurn (w w' : world) :
    reachable cfg w -> turn cfg w w' -> reachable cfg w'.

End Async.

Import Async.

(* ================================================================== *)
(** ** The program: the handlers in the order they are registered

    Telegraf runs the registered handlers as a chain of middleware.  A
    handler installed with [bot.on(filter, fn)] or [bot.command(name,
    fn)] runs [fn] when the update passes its test and hands the update
    to the next handler otherwise; none of the five handlers of the bot
    calls [next] itself. *)
Module Program.

(** An update of kind [message]. *)
Record message : Type := {
  msg_chat_id : Z;                     (* message.chat.id *)
  msg_text : option jsstring;          (* message.text *)
  msg_command : option string;         (* the command that a bot_command
                                          entity at the start of the text
                                          names *)
  msg_forward_date : bool;             (* 'forward_date' in message *)
  msg_forward_from_chat : option Z     (* message.forward_from_chat?.id *)
}.

(** [None]: the update is handed to the next handler. *)
Definition middleware := message -> network -> state -> option state.

(** [bot.on(message('text'), ...)]: the filter asks for the key. *)
Definition on_text (cfg : config) : middleware :=
  fun m net st =>
    match msg_text m with
    | Some t =>
        Some (onText cfg {| chat_id := msg_chat_id m;
                            forward_from_chat := msg_forward_from_chat m;
                            text := t |} net st)
    | None => None
    end.

(** [bot.on(message('forward_date'), ...)] *)
Definition on_forward_date (cfg : config) : middleware :=
  fun m net st =>
    if msg_forward_date m then
      Some (onForwardDate cfg
              {| fwd_chat_id := msg_chat_id m;
                 fwd_from_chat := msg_forward_from_chat m;
                 fwd_text := msg_text m |} net st)
    else None.

(** [bot.command(name, ...)]: a text message that starts with the
    command. *)
Definition on_command (name : string) (fn : network -> state -> state)
  : middleware :=
  fun m net st =>
    match msg_text m, msg_command m with
    | Some _, Some c => if String.eqb c name then Some (fn net st) else None
    | _, _ => None
    end.

(** The handlers, in the order of their registration. *)
Definition middlewares (cfg : config) : list middleware :=
  [ on_text cfg;
    on_forward_date cfg;
    on_command "start" (fun _ => onStart);
    on_command "stats" (fun _ => onStats cfg);
    on_command "test" (onTest cfg) ].

(** The first handler that takes the update handles it; an update that
    none takes changes nothing. *)
Fixpoint compose (ms : list middleware) (m : message) (net : network)
  (st : state) : state :=
  match ms with
  | [] => st
  | f :: rest =>
      match f m net st with
      | Some st' => st'
      | None => compose rest m net st
      end
  end.

Definition deliver (cfg : config) (st : state) (u : message * network)
  : state :=
  compose (middlewares cfg) (fst u) (snd u) st.

Definition program (cfg : config) (updates : list (message * network))
  : state :=
  fold_left (deliver cfg) updates initial_state.

(** The message as the text handler sees it. *)
Definition as_text_message (m : message) (t : jsstring) : text_message :=
  {| chat_id := msg_chat_id m;
     forward_from_chat := msg_forward_from_chat m;
     text := t |}.

End Program.

Import Program.

(* ================================================================== *)
(** ** The specification's vocabulary

    What the specification calls labels, tokens, numeric values and
    phrases, stated on strings directly. *)
Module Shape.

(** The word [w], in any mix of upper and lower case. *)
Definition spells (w : string) (s : jsstring) : Prop :=
  map canonicalize s = map canonicalize (units w).

(** Arbitrary white space, possibly none. *)
Definition blank (s : jsstring) : Prop := forallb is_space s = true.

(** A non-empty run of characters of one kind. *)
Definition run_of (kind : code_unit -> bool) (s : jsstring) : Prop :=
  s <> [] /\ forallb kind s = true.

(** A token: a non-empty run of word characters. *)
Definition token : jsstring -> Prop := run_of is_word.

(** The [N] of a take-profit phrase: a non-empty run of digits. *)
Definition ordinal : jsstring -> Prop := run_of is_digit.

Definition digit_or_point (c : code_unit) : bool := is_digit c || N.eqb c 46.

(** A numeric value as the patterns take it: a non-empty run of digits
    and decimal points. *)
Definition numeric : jsstring -> Prop := run_of digit_or_point.

Definition either (p q : jsstring -> Prop) (s : jsstring) : Prop := p s \/ q s.

(** A phrase is a list of pieces; a string fits it when it is the
    concatenation of one string per piece. *)
Definition phrase := list (jsstring -> Prop).

Definition fits (ph : phrase) (s : jsstring) : Prop :=
  exists parts, Forall2 (fun piece part => piece part) ph parts /\
                s = List.concat parts.

(** The text contains the phrase somewhere. *)
Definition contains (ph : phrase) (text : jsstring) : Prop :=
  exists before middle after,
    text = before ++ middle ++ after /\ fits ph middle.

(** A label, white space, a colon, white space. *)
Definition labelled (label : phrase) (value : jsstring -> Prop) : phrase :=
  label ++ [blank; spells ":"; blank; value].

(** The five parts of a new signal. *)
Definition script_label : phrase := labelled [spells "script"] token.

Definition position_label : phrase :=
  labelled [spells "position"] (either (spells "BUY") (spells "SELL")).

Definition enter_price_label : phrase :=
  labelled [spells "enter"; blank; spells "price"] numeric.

Definition take_profit_1_label : phrase :=
  labelled [spells "take"; blank; spells "profit"; blank; spells "1"] numeric.

Definition stoploss_label : phrase := labelled [spells "stoploss"] numeric.

(** take profit N from (long|short) signal *)
Definition take_profit_from_phrase : phrase :=
  [spells "take"; blank; spells "profit"; blank; ordinal; blank;
   spells "from"; blank; either (spells "long") (spells "short"); blank;
   spells "signal"].

(** price : <number> in <token> *)
Definition price_in_phrase : phrase :=
  labelled [spells "price"] numeric ++ [blank; spells "in"; blank; token].

(** at price : <number> in <token> *)
Definition at_price_in_phrase : phrase :=
  [spells "at"; blank] ++ price_in_phrase.

(** hit sl from (long|short) signal *)
Definition hit_sl_phrase : phrase :=
  [spells "hit"; blank; spells "sl"; blank; spells "from"; blank;
   either (spells "long") (spells "short"); blank; spells "signal"].

(** The five labelled parts of a new signal, all present, each numeric
    value being a run of digits and points as the patterns take it. *)
Definition new_signal_shape (text : jsstring) : Prop :=
  contains script_label text /\
  contains position_label text /\
  contains enter_price_label text /\
  contains take_profit_1_label text /\
  contains stoploss_label text.

(** Following the specification's words for a numeric value: a digit
    sequence optionally containing a decimal point, that is digits with
    at most one point among them. *)
Definition count_points (s : jsstring) : nat :=
  List.length (filter (N.eqb 46) s).

Definition digit_sequence_with_optional_point (s : jsstring) : bool :=
  forallb digit_or_point s && existsb is_digit s &&
  Nat.leb (count_points s) 1.

(** A numeric value in the specification's words. *)
Definition decimal (s : jsstring) : Prop :=
  digit_sequence_with_optional_point s = true.

(** The five labelled parts with numeric values in the specification's
    words. *)
Definition new_signal_shape_as_specified (text : jsstring) : Prop :=
  contains script_label text /\
  contains position_label text /\
  contains (labelled [spells "enter"; blank; spells "price"] decimal) text /\
  contains (labelled [spells "take"; blank; spells "profit"; blank;
                      spells "1"] decimal) text /\
  contains (labelled [spells "stoploss"] decimal) text.

(** Following the specification's words: the originating identity of a
    text message is the original channel identity when the message is
    forwarded and the chat identity otherwise. *)
Definition originating_identity (m : text_message) : jsstring :=
  match forward_from_chat m with
  | Some id => JS.toString id
  | None => JS.toString (chat_id m)
  end.

End Shape.

Import Shape.

(** Following the specification's words: the status field of the JSON
    body of the downstream response; [None] when there is no response,
    no JSON body, or no string under that name. *)
Definition response_status (net : network) : option jsstring :=
  match net with
  | Responds (Wellformed (JObject members)) =>
      match lookup (units "status") members with
      | Some (JString s) => Some s
      | _ => None
      end
  | _ => None
  end.

(** The invariant of the three counters. *)
Definition counted (st : state) : Prop :=
  (messagesForwarded st + messagesIgnored st <= messagesReceived st)%N.

(** The invariant while calls are suspended: each of them has been
    counted as received and as nothing else yet. *)
Definition counted_with_suspended (w : world) : Prop :=
  (messagesForwarded (now w) + messagesIgnored (now w) +
   N.of_nat (suspended_messages w) <= messagesReceived (now w))%N.

(** The three counters of two states agree. *)
Definition same_counters (st st' : state) : Prop :=
  messagesReceived st' = messagesReceived st /\
  messagesForwarded st' = messagesForwarded st /\
  messagesIgnored st' = messagesIgnored st.

(** *** Sample inputs *)
Module Samples.

(** The defaults of the configuration: no source-channel restriction. *)
Definition default_config : config :=
  {| SOURCE_CHANNEL_ID := [];
     WEBSITE_API_URL := units "http://localhost:3000";
     INGEST_API_KEY := units "your-secret-key" |}.

(** The configuration of the README. *)
Definition restricted_config : config :=
  {| SOURCE_CHANNEL_ID := units "-1001234567890";
     WEBSITE_API_URL := units "http://localhost:3000";
     INGEST_API_KEY := units "your-secret-key" |}.

Definition take_profit_sample : jsstring :=
  units ("Position Status" ++ newline ++
         "Take Profit 3 From Long Signal" ++ newline ++
         "at Price : 25822.02 in NAS100")%string.

Definition chatter : jsstring :=
  units "Hello, check out this link https://example.com".

(** A chat message from somewhere else, forwarded from nowhere. *)
Definition stranger : text_message :=
  {| chat_id := 42; forward_from_chat := None; text := testMessage |}.


(** A message in the chat whose identity lacks the 100 of the channel. *)
Definition short_form_chat : text_message :=
  {| chat_id := (-1234567890)%Z; forward_from_chat := None;
     text := testMessage |}.

Definition stop_loss_sample : jsstring :=
  units ("Position Status" ++ newline ++
         "Hit SL From Long Signal" ++ newline ++
         "Price : 4249.13 in XAUUSD")%string.

Definition stop_loss_shouted : jsstring :=
  units ("POSITION STATUS" ++ newline ++
         "HIT SL FROM LONG SIGNAL" ++ newline ++
         "PRICE : 4249.13 IN XAUUSD")%string.

(** New-signal labels whose numeric values are bare points. *)
Definition dotted_signal : jsstring :=
  units "script:a position:buy enter price:. take profit 1:. stoploss:.".

(** The body [{status: success, signal: {script: {toString: 0}}}]. *)
Definition unprintable_success : network :=
  Responds (Wellformed
    (JObject
       [(units "status", JString (units "success"));
        (units "signal",
         JObject [(units "script",
                   JObject [(units "toString", JNumber 0 0)])])])).

(** The message that a user sends to invoke the test command. *)
Definition test_command_message : message :=
  {| msg_chat_id := 42; msg_text := Some (units "/test");
     msg_command := Some "test"%string; msg_forward_date := false;
     msg_forward_from_chat := None |}.


(** A text message of a chat that is not the source and not its short
    form, forwarded from nowhere. *)
Definition stranger_message : message :=
  {| msg_chat_id := 42; msg_text := Some testMessage;
     msg_command := None; msg_forward_date := false;
     msg_forward_from_chat := None |}.

Definition says (t : jsstring) : update :=
  TextMessage {| chat_id := 42; forward_from_chat := None; text := t |}.

End Samples.

Import Samples.

(* ================================================================== *)
(** ** Start-up: the configuration is read from the environment *)
Module Startup.

(** [process.env]: the variables that are set, by name. *)
Definition environment := list (string * jsstring).

Fixpoint getenv (env : environment) (name : string) : option jsstring :=
  match env with
  | [] => None
  | (n, v) :: rest => if String.eqb n name then Some v else getenv rest name
  end.

(** [process.env.NAME || fallback]: an unset variable is [undefined] and
    an empty one is the empty string, both falsy. *)
Definition or_else (v : option jsstring) (fallback : jsstring) : jsstring :=
  match v with
  | Some s => if JS.truthy s then s else fallback
  | None => fallback
  end.

Definition BOT_TOKEN (env : environment) : jsstring :=
  or_else (getenv env "TELEGRAM_BOT_TOKEN") [].

Definition configuration (env : environment) : config :=
  {| SOURCE_CHANNEL_ID := or_else (getenv env "TELEGRAM_SOURCE_CHANNEL_ID") [];
     WEBSITE_API_URL :=
       or_else (getenv env "WEBSITE_API_URL") (units "http://localhost:3000");
     INGEST_API_KEY :=
       or_else (getenv env "INGEST_API_KEY") (units "your-secret-key") |}.

(** What [bot.launch()] comes to. *)
Inductive launch_outcome : Type :=
| Launched
| LaunchFailed.

(** What the module does from top to bottom: [process.exit(1)] without
    a token, before anything else; [process.exit(1)] again when the
    launch is rejected; a running bot with its configuration
    otherwise. *)
Inductive boot_result : Type :=
| Exits (code : Z)
| Starts (cfg : config).

Definition boot (env : environment) (launch : launch_outcome) : boot_result :=
  if negb (JS.truthy (BOT_TOKEN env)) then Exits 1
  else match launch with
       | Launched => Starts (configuration env)
       | LaunchFailed => Exits 1
       end.

End Startup.

Import Startup.

(* ================================================================== *)
(** ** What the output of a run shows *)

(** Every request went to the ingestion endpoint, with the bearer key,
    and carries a text that the classifier accepts. *)
Definition sends_only_signals (cfg : config) (st : state) : Prop :=
  Forall (fun r => r = ingest_request cfg (payload_message r) /\
                   isValidSignalMessage (payload_message r) = true)
         (requests st).

Definition count_lines (p : log_line -> bool) (st : state) : N :=
  N.of_nat (List.length (filter p (console st))).

Definition count_replies (p : reply -> bool) (st : state) : N :=
  N.of_nat (List.length (filter p (replies st))).

Definition is_testing_reply (r : reply) : bool :=
  match r with TestingReply => true | _ => false end.

Definition is_test_forwarded_reply (r : reply) : bool :=
  match r with TestForwardedReply => true | _ => false end.

Definition is_signal_forwarded_line (l : log_line) : bool :=
  match l with SignalForwarded _ => true | _ => false end.

Definition is_ignored_line (l : log_line) : bool :=
  match l with IgnoredNonSignal _ => true | _ => false end.

(** Each received message was either ignored or sent, once; the other
    requests are those of the test command. *)
Definition every_message_accounted (st : state) : Prop :=
  (messagesReceived st + count_replies is_testing_reply st =
   messagesIgnored st + N.of_nat (List.length (requests st)))%N.

(** The ignored and the forwarded counter against the console. *)
Definition counters_mirror_console (st : state) : Prop :=
  messagesIgnored st = count_lines is_ignored_line st /\
  (messagesForwarded st + count_replies is_test_forwarded_reply st =
   count_lines is_signal_forwarded_line st)%N.

(** A summary line shows a multiple of ten and counters within it. *)
Definition summary_in_order (l : log_line) : Prop :=
  match l with
  | Stats r f i => (r mod 10 = 0 /\ f + i <= r)%N
  | _ => True
  end.

(** The pattern matches the string as a whole. *)
Definition accepts (r : regex) (s : jsstring) : bool :=
  nullable (fold_left (fun r' c => deriv c r') s r).

(** A stoploss label whose value has a digit in it: the label, then
    digits and points up to a digit. *)
Definition stoploss_up_to_a_digit : regex :=
  Seq (lit "stoploss")
    (Seq ws (Seq (lit ":") (Seq ws
       (Seq (Star (One [Digit; Chr 46%N])) (One [Digit]))))).

(** The pattern matches exactly the strings that fit the phrase. *)
Definition describes (r : regex) (ph : phrase) : Prop :=
  forall s, matches r s <-> fits ph s.

(* ================================================================== *)
(** ** Facts about patterns *)

Lemma matches_nil_nullable (r : regex) : matches r [] -> nullable r = true.
Proof.
  intros H. remember (@nil code_unit) as s eqn:E.
  induction H as [ | cls c Hm | r1 r2 s1 s2 H1 IH1 H2 IH2
                 | r1 r2 s H IH | r1 r2 s H IH | r | r s1 s2 H1 IH1 H2 IH2 ];
    simpl; auto.
  - discriminate.
  - apply app_eq_nil in E as [E1 E2]. rewrite IH1, IH2; auto.
  - rewrite IH; auto.
  - rewrite IH; auto using orb_true_r.
Qed.

Lemma nullable_matches_nil (r : regex) : nullable r = true -> matches r [].
Proof.
  induction r as [ | | cls | r1 IH1 r2 IH2 | r1 IH1 r2 IH2 | r IH ];
    simpl; intros H; try discriminate.
  - constructor.
  - apply andb_prop in H as [H1 H2].
    change (@nil code_unit) with (@nil code_unit ++ []).
    constructor; auto.
  - apply orb_prop in H as [H | H]; [apply MAltL | apply MAltR]; auto.
  - constructor.
Qed.

Lemma matches_eps (s : jsstring) : matches Eps s <-> s = [].
Proof.
  split; [intros H; inversion H; reflexivity | intros ->; constructor].
Qed.

Lemma matches_void (s : jsstring) : ~ matches Void s.
Proof. intros H; inversion H. Qed.

Lemma matches_one (cls : list atom) (s : jsstring) :
  matches (One cls) s <-> exists c, s = [c] /\ member cls c = true.
Proof.
  split.
  - intros H; inversion H; subst; eauto.
  - intros (c & -> & H); constructor; exact H.
Qed.

Lemma matches_seq (r1 r2 : regex) (s : jsstring) :
  matches (Seq r1 r2) s <->
  exists s1 s2, s = s1 ++ s2 /\ matches r1 s1 /\ matches r2 s2.
Proof.
  split.
  - intros H; inversion H; subst; eauto.
  - intros (s1 & s2 & -> & H1 & H2); constructor; assumption.
Qed.

Lemma matches_alt (r1 r2 : regex) (s : jsstring) :
  matches (Alt r1 r2) s <-> matches r1 s \/ matches r2 s.
Proof.
  split.
  - intros H; inversion H; subst; auto.
  - intros [H | H]; [apply MAltL | apply MAltR]; exact H.
Qed.

Lemma matches_star_cons (r : regex) (c : code_unit) (s : jsstring) :
  matches (Star r) (c :: s) ->
  exists s1 s2, s = s1 ++ s2 /\ matches r (c :: s1) /\ matches (Star r) s2.
Proof.
  intros H. remember (Star r) as q eqn:Eq. remember (c :: s) as t eqn:Et.
  revert Eq Et.
  induction H as [ | cls d Hm | r1 r2 s1 s2 H1 IH1 H2 IH2
                 | r1 r2 u H IH | r1 r2 u H IH | r0 | r0 s1 s2 H1 IH1 H2 IH2 ];
    intros Eq Et; try discriminate.
  injection Eq as ->.
  destruct s1 as [ | d s1'].
  - simpl in Et. apply IH2; auto.
  - simpl in Et. injection Et as -> <-. exists s1', s2. auto.
Qed.

Lemma deriv_matches (r : regex) (c : code_unit) (s : jsstring) :
  matches (deriv c r) s <-> matches r (c :: s).
Proof.
  revert s.
  induction r as [ | | cls | r1 IH1 r2 IH2 | r1 IH1 r2 IH2 | r IH ];
    intros s; simpl.
  - split; intros H; inversion H.
  - split; intros H; inversion H.
  - rewrite matches_one. destruct (member cls c) eqn:Hm.
    + rewrite matches_eps. split.
      * intros ->. eauto.
      * intros (d & E & _). injection E as _ E. auto.
    + split; [intros H; inversion H | ].
      intros (d & E & Hd). injection E as -> _. congruence.
  - assert (Hleft : matches (Seq (deriv c r1) r2) s <->
                    exists s1 s2, s = s1 ++ s2 /\ matches r1 (c :: s1) /\
                                  matches r2 s2).
    { rewrite matches_seq. split; intros (s1 & s2 & E & H1 & H2);
        exists s1, s2;
        (split; [exact E | split; [apply IH1; exact H1 | exact H2]]). }
    rewrite (matches_seq r1 r2 (c :: s)).
    destruct (nullable r1) eqn:Hn.
    + rewrite matches_alt, Hleft, IH2. split.
      * intros [(s1 & s2 & -> & H1 & H2) | H2].
        -- exists (c :: s1), s2. auto.
        -- exists [], (c :: s). auto using nullable_matches_nil.
      * intros (s1 & s2 & E & H1 & H2). destruct s1 as [ | d s1'].
        -- right. simpl in E. subst s2. exact H2.
        -- left. simpl in E. injection E as -> ->. eauto.
    + rewrite Hleft. split.
      * intros (s1 & s2 & -> & H1 & H2). exists (c :: s1), s2. auto.
      * intros (s1 & s2 & E & H1 & H2). destruct s1 as [ | d s1'].
        -- apply matches_nil_nullable in H1. congruence.
        -- simpl in E. injection E as -> ->. eauto.
  - rewrite !matches_alt, IH1, IH2. reflexivity.
  - rewrite matches_seq. split.
    + intros (s1 & s2 & -> & H1 & H2). apply IH in H1.
      change (c :: s1 ++ s2) with ((c :: s1) ++ s2). constructor; assumption.
    + intros H. apply matches_star_cons in H as (s1 & s2 & -> & H1 & H2).
      exists s1, s2. rewrite IH. auto.
Qed.

Lemma accepts_matches (r : regex) (s : jsstring) :
  accepts r s = true <-> matches r s.
Proof.
  unfold accepts. revert r.
  induction s as [ | c s IH]; intros r; simpl.
  - split; [apply nullable_matches_nil | apply matches_nil_nullable].
  - rewrite IH. apply deriv_matches.
Qed.

Lemma match_here_spec (r : regex) (s : jsstring) :
  match_here r s = true <->
  exists m rest, s = m ++ rest /\ matches r m.
Proof.
  revert r. induction s as [ | c s IH]; intros r; simpl.
  - rewrite orb_false_r. split.
    + intros H. exists [], []. auto using nullable_matches_nil.
    + intros (m & rest & E & H). symmetry in E.
      apply app_eq_nil in E as [-> _]. apply matches_nil_nullable; exact H.
  - rewrite orb_true_iff, IH. split.
    + intros [H | (m & rest & -> & H)].
      * exists [], (c :: s). auto using nullable_matches_nil.
      * exists (c :: m), rest. rewrite <- deriv_matches. auto.
    + intros (m & rest & E & H). destruct m as [ | d m'].
      * left. apply matches_nil_nullable; exact H.
      * right. simpl in E. injection E as -> ->.
        exists m', rest. rewrite deriv_matches. auto.
Qed.

(** [test] holds exactly when some substring matches the pattern. *)
Lemma test_spec (r : regex) (s : jsstring) :
  test r s = true <->
  exists before m after, s = before ++ m ++ after /\ matches r m.
Proof.
  induction s as [ | c s IH]; simpl.
  - rewrite !orb_false_r. split.
    + intros H. exists [], [], []. auto using nullable_matches_nil.
    + intros (b & m & a & E & H). symmetry in E.
      apply app_eq_nil in E as [_ E]. apply app_eq_nil in E as [-> _].
      apply matches_nil_nullable; exact H.
  - rewrite orb_true_iff, IH.
    change (nullable r || match_here (deriv c r) s = true)
      with (match_here r (c :: s) = true).
    rewrite match_here_spec. split.
    + intros [(m & rest & E & H) | (b & m & a & -> & H)].
      * exists [], m, rest. auto.
      * exists (c :: b), m, a. auto.
    + intros (b & m & a & E & H). destruct b as [ | d b'].
      * left. exists m, a. auto.
      * right. simpl in E. injection E as -> ->. eauto.
Qed.

(** *** Runs of one character set *)

Lemma matches_star_one (cls : list atom) (s : jsstring) :
  matches (Star (One cls)) s <-> forallb (member cls) s = true.
Proof.
  split.
  - intros H. remember (Star (One cls)) as q eqn:Eq. revert Eq.
    induction H as [ | cls' d Hm | r1 r2 s1 s2 H1 IH1 H2 IH2
                   | r1 r2 u H IH | r1 r2 u H IH | r0
                   | r0 s1 s2 H1 IH1 H2 IH2 ];
      intros Eq; try discriminate; [reflexivity | ].
    injection Eq as ->. apply matches_one in H1 as (c & -> & Hc).
    simpl. rewrite Hc. auto.
  - induction s as [ | c s IH]; simpl; intros H.
    + constructor.
    + apply andb_prop in H as [Hc Hs].
      change (c :: s) with ([c] ++ s). constructor; auto.
      constructor; exact Hc.
Qed.

Lemma matches_plus_one (cls : list atom) (s : jsstring) :
  matches (Plus (One cls)) s <-> s <> [] /\ forallb (member cls) s = true.
Proof.
  unfold Plus. rewrite matches_seq. split.
  - intros (s1 & s2 & -> & H1 & H2).
    apply matches_one in H1 as (c & -> & Hc).
    apply matches_star_one in H2. simpl. rewrite Hc, H2.
    split; [discriminate | reflexivity].
  - intros [Hne H]. destruct s as [ | c s]; [congruence | ].
    simpl in H. apply andb_prop in H as [Hc Hs].
    exists [c], s. repeat split.
    + constructor; exact Hc.
    + apply matches_star_one; exact Hs.
Qed.

Lemma forallb_same (f g : code_unit -> bool) (s : jsstring) :
  (forall c, f c = g c) -> forallb f s = forallb g s.
Proof.
  intros E. induction s as [ | c s IH]; simpl; [ | rewrite E, IH]; reflexivity.
Qed.

Lemma canonicalize_point (c : code_unit) :
  N.eqb 46 (canonicalize c) = N.eqb c 46.
Proof.
  unfold canonicalize, is_lower, in_range.
  destruct (N.leb_spec 97 c), (N.leb_spec c 122); cbn [andb];
    apply eq_iff_eq_true; rewrite !N.eqb_eq; lia.
Qed.

Lemma matches_ws (s : jsstring) : matches ws s <-> blank s.
Proof.
  unfold ws, blank. rewrite matches_star_one.
  rewrite (forallb_same (member [Space]) is_space); [reflexivity | ].
  intros c. apply orb_false_r.
Qed.

Lemma matches_word (s : jsstring) : matches word s <-> token s.
Proof.
  unfold word, token, run_of. rewrite matches_plus_one.
  rewrite (forallb_same (member [Word]) is_word); [reflexivity | ].
  intros c. apply orb_false_r.
Qed.

Lemma matches_digits (s : jsstring) : matches digits s <-> ordinal s.
Proof.
  unfold digits, ordinal, run_of. rewrite matches_plus_one.
  rewrite (forallb_same (member [Digit]) is_digit); [reflexivity | ].
  intros c. apply orb_false_r.
Qed.

Lemma matches_number (s : jsstring) : matches number s <-> numeric s.
Proof.
  unfold number, numeric, run_of. rewrite matches_plus_one.
  rewrite (forallb_same (member [Digit; Chr 46%N]) digit_or_point);
    [reflexivity | ].
  intros c. unfold member, digit_or_point. cbn [existsb atom_test].
  rewrite orb_false_r.
  change (canonicalize 46%N) with 46%N. rewrite canonicalize_point. reflexivity.
Qed.

Lemma matches_chars (l s : jsstring) :
  matches (fold_right (fun c r => Seq (One [Chr c]) r) Eps l) s <->
  map canonicalize s = map canonicalize l.
Proof.
  revert s. induction l as [ | c l IH]; intros s; simpl.
  - rewrite matches_eps. destruct s; simpl; split; congruence.
  - rewrite matches_seq. split.
    + intros (s1 & s2 & -> & H1 & H2).
      apply matches_one in H1 as (d & -> & Hd). apply IH in H2.
      unfold member in Hd. simpl in Hd. rewrite orb_false_r in Hd.
      apply N.eqb_eq in Hd. simpl. congruence.
    + intros E. destruct s as [ | d s]; simpl in E; [discriminate | ].
      injection E as Ed Es. exists [d], s. repeat split.
      * constructor. unfold member. simpl. rewrite orb_false_r.
        apply N.eqb_eq. congruence.
      * apply IH; exact Es.
Qed.

Lemma matches_lit (w : string) (s : jsstring) :
  matches (lit w) s <-> spells w s.
Proof. apply matches_chars. Qed.

(** *** Phrases and the patterns that describe them *)

Lemma fits_nil (s : jsstring) : fits [] s <-> s = [].
Proof.
  unfold fits. split.
  - intros (parts & F & ->). inversion F. reflexivity.
  - intros ->. exists []. split; [constructor | reflexivity].
Qed.

Lemma fits_cons (p : jsstring -> Prop) (ph : phrase) (s : jsstring) :
  fits (p :: ph) s <-> exists s1 s2, s = s1 ++ s2 /\ p s1 /\ fits ph s2.
Proof.
  unfold fits. split.
  - intros (parts & F & ->). inversion F as [ | q x qs xs Hx Hxs]; subst.
    exists x, (List.concat xs). simpl. eauto.
  - intros (s1 & s2 & -> & H1 & parts & F & ->).
    exists (s1 :: parts). split; [constructor; assumption | reflexivity].
Qed.

Lemma fits_one (p : jsstring -> Prop) (s : jsstring) : fits [p] s <-> p s.
Proof.
  rewrite fits_cons. split.
  - intros (s1 & s2 & -> & H1 & H2). apply fits_nil in H2 as ->.
    rewrite app_nil_r. exact H1.
  - intros H. exists s, []. rewrite app_nil_r, fits_nil. auto.
Qed.

Lemma describes_last (r : regex) (p : jsstring -> Prop) :
  (forall s, matches r s <-> p s) -> describes r [p].
Proof. intros H s. rewrite fits_one. apply H. Qed.

Lemma describes_cons (r1 r2 : regex) (p : jsstring -> Prop) (ph : phrase) :
  (forall s, matches r1 s <-> p s) -> describes r2 ph ->
  describes (Seq r1 r2) (p :: ph).
Proof.
  intros H1 H2 s. rewrite matches_seq, fits_cons.
  split; intros (s1 & s2 & E & Ha & Hb); exists s1, s2;
    (split; [exact E | split; [apply H1; exact Ha | apply H2; exact Hb]]).
Qed.

Lemma matches_either (r1 r2 : regex) (p q : jsstring -> Prop) :
  (forall s, matches r1 s <-> p s) -> (forall s, matches r2 s <-> q s) ->
  forall s, matches (Alt r1 r2) s <-> either p q s.
Proof.
  intros H1 H2 s. unfold either. rewrite matches_alt, H1, H2. reflexivity.
Qed.

Lemma test_contains (r : regex) (ph : phrase) (text : jsstring) :
  describes r ph -> (test r text = true <-> contains ph text).
Proof.
  intros D. rewrite test_spec. unfold contains.
  split; intros (b & m & a & E & H); exists b, m, a;
    (split; [exact E | apply D; exact H]).
Qed.

Ltac piece :=
  first [ exact matches_ws | exact matches_word | exact matches_digits
        | exact matches_number | apply matches_lit
        | apply matches_either; apply matches_lit ].

Ltac describe :=
  repeat first [ apply describes_last; piece
               | apply describes_cons; [piece | ] ].

Lemma describes_script : describes re_script script_label.
Proof. cbv [re_script script_label labelled app]. describe. Qed.

Lemma describes_position : describes re_position position_label.
Proof. cbv [re_position position_label labelled app]. describe. Qed.

Lemma describes_enter_price : describes re_enter_price enter_price_label.
Proof. cbv [re_enter_price enter_price_label labelled app]. describe. Qed.

Lemma describes_take_profit_1 :
  describes re_take_profit_1 take_profit_1_label.
Proof. cbv [re_take_profit_1 take_profit_1_label labelled app]. describe. Qed.

Lemma describes_stoploss : describes re_stoploss stoploss_label.
Proof. cbv [re_stoploss stoploss_label labelled app]. describe. Qed.

Lemma describes_tp_from : describes re_tp_from take_profit_from_phrase.
Proof. cbv [re_tp_from take_profit_from_phrase]. describe. Qed.

Lemma describes_price_in : describes re_price_in price_in_phrase.
Proof. cbv [re_price_in price_in_phrase labelled app]. describe. Qed.

Lemma describes_hit_sl : describes re_hit_sl hit_sl_phrase.
Proof. cbv [re_hit_sl hit_sl_phrase]. describe. Qed.

(** An optional group in front of a pattern does not change what [test]
    finds: the search is not anchored. *)
Lemma test_optional_prefix (r0 r : regex) (text : jsstring) :
  test (Seq (Opt r0) r) text = true <-> test r text = true.
Proof.
  rewrite !test_spec. split.
  - intros (b & m & a & -> & H).
    apply matches_seq in H as (m0 & m1 & -> & _ & H1).
    exists (b ++ m0), m1, a. split; [ | exact H1].
    rewrite <- !app_assoc. reflexivity.
  - intros (b & m & a & -> & H). exists b, m, a. split; [reflexivity | ].
    change m with ([] ++ m). constructor; [ | exact H].
    apply MAltR. constructor.
Qed.

Lemma test_at_price_in (text : jsstring) :
  test re_at_price_in text = true <-> contains price_in_phrase text.
Proof.
  unfold re_at_price_in. rewrite test_optional_prefix.
  apply test_contains, describes_price_in.
Qed.

(** A phrase found behind two more pieces is found all the same. *)
Lemma contains_behind (p q : jsstring -> Prop) (ph : phrase)
  (text : jsstring) :
  contains ([p; q] ++ ph) text -> contains ph text.
Proof.
  intros (b & m & a & -> & H). simpl in H.
  apply fits_cons in H as (s1 & m1 & -> & _ & H).
  apply fits_cons in H as (s2 & m2 & -> & _ & H).
  exists (b ++ s1 ++ s2), m2, a. split; [ | exact H].
  rewrite <- !app_assoc. reflexivity.
Qed.

Lemma isNewSignal_shape (text : jsstring) :
  isNewSignal text = true <-> new_signal_shape text.
Proof.
  unfold isNewSignal, new_signal_shape. rewrite !andb_true_iff.
  rewrite (test_contains text describes_script).
  rewrite (test_contains text describes_position).
  rewrite (test_contains text describes_enter_price).
  rewrite (test_contains text describes_take_profit_1).
  rewrite (test_contains text describes_stoploss).
  tauto.
Qed.

(* ================================================================== *)
(** ** The classifier *)

(** C1, as amended. The new-signal family matches a text exactly when
    the text contains all five labelled parts: script with a token,
    position with BUY or SELL, enter price, take profit 1 and stoploss
    each with a numeric value, in any letter case and with any white
    space around the colon, a numeric value being any non-empty run of
    digits and decimal points.  Such a text is a signal; a text that
    lacks one of the parts is a signal only if one of the other two
    families matches. *)
Theorem new_signal_iff_five_labels (text : jsstring) :
  (isNewSignal text = true <-> new_signal_shape text) /\
  (new_signal_shape text -> isValidSignalMessage text = true) /\
  (~ new_signal_shape text ->
   isValidSignalMessage text = isTpUpdate text || isSlHit text).
Proof.
  split; [apply isNewSignal_shape | split].
  - intros H. apply isNewSignal_shape in H.
    unfold isValidSignalMessage. rewrite H. reflexivity.
  - intros H. unfold isValidSignalMessage.
    destruct (isNewSignal text) eqn:E.
    + exfalso. apply H, isNewSignal_shape, E.
    + reflexivity.
Qed.

Lemma new_signal_iff_five_labels_witness :
  isValidSignalMessage testMessage = true.
Proof.
  apply (new_signal_iff_five_labels testMessage).
  apply isNewSignal_shape. vm_compute. reflexivity.
Defined.

(** A numeric value in the specification's words has a digit, with
    nothing but digits and points before it. *)
Lemma decimal_has_digit (v : jsstring) :
  decimal v ->
  exists v1 d v2,
    v = v1 ++ d :: v2 /\ forallb digit_or_point v1 = true /\
    is_digit d = true.
Proof.
  unfold decimal, digit_sequence_with_optional_point.
  rewrite !andb_true_iff. intros ((Hall & Hex) & _).
  induction v as [ | c v IH]; simpl in *; [discriminate | ].
  apply andb_prop in Hall as [Hc Hall].
  destruct (is_digit c) eqn:Ed.
  - exists [], c, v. auto.
  - simpl in Hex. destruct (IH Hall Hex) as (v1 & d & v2 & -> & H1 & Hd).
    exists (c :: v1), d, v2. simpl. rewrite Hc, H1. auto.
Qed.

Lemma member_number (c : code_unit) :
  member [Digit; Chr 46%N] c = digit_or_point c.
Proof.
  unfold member, digit_or_point. cbn [existsb atom_test].
  rewrite orb_false_r.
  change (canonicalize 46%N) with 46%N. rewrite canonicalize_point. reflexivity.
Qed.

Lemma decimal_stoploss_test (text : jsstring) :
  contains (labelled [spells "stoploss"] decimal) text ->
  test stoploss_up_to_a_digit text = true.
Proof.
  intros (b & m & a & -> & H). cbv [labelled app] in H.
  apply fits_cons in H as (s1 & m1 & -> & H1 & H).
  apply fits_cons in H as (s2 & m2 & -> & H2 & H).
  apply fits_cons in H as (s3 & m3 & -> & H3 & H).
  apply fits_cons in H as (s4 & m4 & -> & H4 & H).
  apply (proj1 (fits_one _ _)) in H.
  apply decimal_has_digit in H as (v1 & d & v2 & -> & Hv & Hd).
  apply test_spec.
  exists b, (s1 ++ s2 ++ s3 ++ s4 ++ v1 ++ [d]), (v2 ++ a). split.
  - rewrite <- !app_assoc. reflexivity.
  - unfold stoploss_up_to_a_digit.
    repeat (apply MSeq; [first [ apply matches_lit; assumption
                               | apply matches_ws; assumption
                               | idtac ] | ]).
    + apply matches_star_one.
      rewrite (forallb_same (member [Digit; Chr 46%N]) digit_or_point);
        [exact Hv | apply member_number].
    + constructor. unfold member. simpl. rewrite Hd. reflexivity.
Qed.

(** C1, as stated, fails: a text whose enter price, take profit 1 and
    stoploss are followed by a bare point is matched by the new-signal
    family and classified as a signal, although it has no stoploss label
    with a digit sequence for its value. *)
Lemma bare_points_pass_for_numeric_values :
  isNewSignal dotted_signal = true /\
  isValidSignalMessage dotted_signal = true /\
  ~ new_signal_shape_as_specified dotted_signal.
Proof.
  split; [vm_compute; reflexivity | split; [vm_compute; reflexivity | ]].
  intros (_ & _ & _ & _ & H).
  apply decimal_stoploss_test in H. vm_compute in H. discriminate.
Qed.

(** C6, as amended. The numeric sub-pattern shared by the enter-price,
    take-profit-1, stoploss and price patterns accepts exactly the
    non-empty strings made of digits and decimal points: no sign, no
    exponent and no separator, but any number of points and no digit
    required. *)
Theorem number_accepts_digit_and_point_runs (s : jsstring) :
  accepts number s = true <-> s <> [] /\ forallb digit_or_point s = true.
Proof. rewrite accepts_matches. apply matches_number. Qed.

(** C6, as stated, fails: the numeric sub-pattern accepts a string with
    two decimal points and a string with no digit at all, neither of
    which is a digit sequence optionally containing a decimal point. *)
Lemma number_accepts_more_than_decimals :
  (accepts number (units "1.2.3") = true /\
   digit_sequence_with_optional_point (units "1.2.3") = false) /\
  (accepts number (units "..") = true /\
   digit_sequence_with_optional_point (units "..") = false).
Proof. repeat split; vm_compute; reflexivity. Qed.

(** C7. A text with a take-profit phrase (take profit N from long or
    short signal) and a price phrase (price : number in token) is a
    signal, whether or not "at" stands before "price". *)
Theorem take_profit_update_matches (text : jsstring) :
  contains take_profit_from_phrase text ->
  contains price_in_phrase text \/ contains at_price_in_phrase text ->
  isValidSignalMessage text = true.
Proof.
  intros Htp Hprice.
  assert (Hp : contains price_in_phrase text).
  { destruct Hprice as [H | H]; [exact H | ].
    unfold at_price_in_phrase in H. apply contains_behind in H. exact H. }
  unfold isValidSignalMessage, isTpUpdate.
  apply (test_contains text describes_tp_from) in Htp.
  apply test_at_price_in in Hp.
  rewrite Htp, Hp. simpl. rewrite orb_true_r. reflexivity.
Qed.

Lemma take_profit_update_matches_witness :
  contains take_profit_from_phrase take_profit_sample /\
  contains at_price_in_phrase take_profit_sample /\
  isValidSignalMessage take_profit_sample = true.
Proof.
  assert (Htp : contains take_profit_from_phrase take_profit_sample).
  { apply (test_contains take_profit_sample describes_tp_from).
    vm_compute. reflexivity. }
  assert (Hat : contains at_price_in_phrase take_profit_sample).
  { assert (D : describes (lit "at" +++ ws +++ re_price_in)%re
                          at_price_in_phrase).
    { cbv [re_price_in at_price_in_phrase price_in_phrase labelled app].
      describe. }
    apply (test_contains take_profit_sample D). vm_compute. reflexivity. }
  split; [exact Htp | split; [exact Hat | ]].
  apply (take_profit_update_matches Htp). right. exact Hat.
Defined.

(* ================================================================== *)
(** ** The forwarder *)

Lemma eqb_eq (a b : jsstring) : JS.eqb a b = true <-> a = b.
Proof.
  revert b. induction a as [ | x a IH]; intros [ | y b]; simpl;
    try (split; [discriminate | discriminate]); [tauto | ].
  rewrite andb_true_iff, N.eqb_eq, IH. split.
  - intros [-> ->]. reflexivity.
  - intros E. injection E as -> ->. auto.
Qed.

Lemma strict_equals_status (net : network) (data : json) (w : string) :
  net = Responds (Wellformed data) -> data <> JNull ->
  forall v, get_status data = Ok v ->
  (strict_equals v w = true <-> response_status net = Some (units w)).
Proof.
  intros -> Hnull v Hv. destruct data as [ | b | m e | s | items | members ];
    simpl in *; try congruence; injection Hv as <-;
    try (split; [discriminate | discriminate]).
  destruct (lookup (units "status") members)
    as [ [ | b | m e | s | items | ms ] | ];
    simpl; try (split; [discriminate | discriminate]).
  rewrite eqb_eq. split; congruence.
Qed.

(** What the forwarder returns and logs, by the status of the response. *)
Lemma forward_outcome_by_status (net : network) :
  (response_status net = Some (units "success") ->
   exists data,
     net = Responds (Wellformed data) /\
     forward_outcome net =
       match success_label data with
       | Ok _ => (true, SignalForwarded data)
       | Thrown e => (false, FailedToForward e)
       end) /\
  (response_status net = Some (units "ignored") ->
   forward_outcome net = (false, IgnoredByParser)) /\
  (response_status net <> Some (units "success") ->
   response_status net <> Some (units "ignored") ->
   exists line, forward_outcome net = (false, line) /\
                is_error_line line = true).
Proof.
  destruct net as [ | [ | data ] ].
  - repeat split; try discriminate. intros _ _. eexists; split; reflexivity.
  - repeat split; try discriminate. intros _ _. eexists; split; reflexivity.
  - destruct (get_status data) as [v | e] eqn:Hv.
    + assert (Hnull : data <> JNull) by (intros ->; discriminate).
      pose proof (strict_equals_status "success" eq_refl Hnull Hv) as Hs.
      pose proof (strict_equals_status "ignored" eq_refl Hnull Hv) as Hi.
      remember (response_status (Responds (Wellformed data))) as rs eqn:Ers.
      clear Ers.
      unfold forward_outcome, forward_attempt. simpl. rewrite Hv. simpl.
      destruct (strict_equals v "success") eqn:Es.
      * repeat split.
        -- intros _. exists data. split; [reflexivity | ].
           destruct (success_label data); reflexivity.
        -- intros H. apply proj1 in Hs. specialize (Hs eq_refl).
           rewrite Hs in H. vm_compute in H. discriminate.
        -- intros H. exfalso. apply H, Hs. reflexivity.
      * destruct (strict_equals v "ignored") eqn:Ei.
        -- repeat split.
           ++ intros H. apply Hs in H. discriminate.
           ++ intros _ H. exfalso. apply H, Hi. reflexivity.
        -- repeat split.
           ++ intros H. apply Hs in H. discriminate.
           ++ intros H. apply Hi in H. discriminate.
           ++ intros _ _. eexists; split; reflexivity.
    + destruct data; simpl in Hv; try discriminate.
      repeat split; try discriminate. intros _ _. eexists; split; reflexivity.
Qed.

Lemma forwardToWebsite_unfold (cfg : config) (text : jsstring) (net : network)
  (st : state) :
  forwardToWebsite cfg text net st =
  (fst (forward_outcome net),
   log [snd (forward_outcome net)] (post (ingest_request cfg text) st)).
Proof.
  unfold forwardToWebsite. destruct (forward_outcome net); reflexivity.
Qed.

(** The counters after one call of [processMessage]. *)
Lemma processMessage_counters (cfg : config) (text : jsstring) (net : network)
  (st : state) :
  let st' := processMessage cfg text net st in
  messagesReceived st' = (messagesReceived st + 1)%N /\
  messagesForwarded st' =
    (messagesForwarded st +
     if isValidSignalMessage text && fst (forward_outcome net)
     then 1 else 0)%N /\
  messagesIgnored st' =
    (messagesIgnored st + if isValidSignalMessage text then 0 else 1)%N.
Proof.
  unfold processMessage. rewrite forwardToWebsite_unfold.
  destruct (isValidSignalMessage text); simpl.
  - destruct (fst (forward_outcome net)); simpl;
      match goal with |- context [if ?b then _ else _] => destruct b end;
      simpl; repeat split; lia.
  - repeat split; lia.
Qed.

(** C3. The code at the failing input: the response has status
    "success", yet the script it carries is an object with a member
    named toString, so the success line cannot be printed; the exception
    is caught, the forwarder returns false and logs a failure, and the
    forwarded counter stays as it was. *)
Theorem success_with_unprintable_script_reports_failure :
  response_status unprintable_success = Some (units "success") /\
  fst (forwardToWebsite default_config testMessage unprintable_success
         initial_state) = false /\
  console (snd (forwardToWebsite default_config testMessage
                  unprintable_success initial_state)) =
    [FailedToForward TypeError] /\
  messagesForwarded (processMessage default_config testMessage
                       unprintable_success initial_state) = 0%N.
Proof. vm_compute. auto. Qed.

(** C8. When the endpoint is unreachable or the body is not JSON, the
    exception raised inside the forwarder is caught there: the forwarder
    returns false, and the dispatcher goes on to count the next message. *)
Theorem forwarder_catches_transport_failure (cfg : config) (text : jsstring)
  (net : network) (st : state) :
  net = Unreachable \/ net = Responds Malformed ->
  (exists e, forward_attempt net = Thrown e) /\
  fst (forwardToWebsite cfg text net st) = false /\
  forall text' net',
    messagesReceived
      (processMessage cfg text' net' (processMessage cfg text net st)) =
    (messagesReceived st + 2)%N.
Proof.
  intros H. split; [ | split].
  - destruct H as [-> | ->]; eexists; reflexivity.
  - rewrite forwardToWebsite_unfold. destruct H as [-> | ->]; reflexivity.
  - intros text' net'.
    destruct (processMessage_counters cfg text' net'
                (processMessage cfg text net st)) as (-> & _).
    destruct (processMessage_counters cfg text net st) as (-> & _).
    lia.
Qed.

Lemma forwarder_catches_transport_failure_witness :
  (exists e, forward_attempt Unreachable = Thrown e) /\
  fst (forwardToWebsite default_config testMessage Unreachable initial_state)
    = false /\
  forall text' net',
    messagesReceived
      (processMessage default_config text' net'
         (processMessage default_config testMessage Unreachable
            initial_state)) =
    (messagesReceived initial_state + 2)%N.
Proof.
  apply (forwarder_catches_transport_failure default_config testMessage
           initial_state (net := Unreachable)).
  left. reflexivity.
Defined.

(* ================================================================== *)
(** ** The dispatcher *)

Lemma processMessage_counted (cfg : config) (text : jsstring) (net : network)
  (st : state) :
  counted st -> counted (processMessage cfg text net st).
Proof.
  unfold counted. intros H.
  destruct (processMessage_counters cfg text net st) as (-> & -> & ->).
  destruct (isValidSignalMessage text); simpl;
    [destruct (fst (forward_outcome net)) | ]; lia.
Qed.

Lemma onText_cases (cfg : config) (m : text_message) (net : network)
  (st : state) :
  onText cfg m net st = st \/
  onText cfg m net st = processMessage cfg (text m) net st.
Proof.
  unfold onText.
  destruct (JS.truthy (SOURCE_CHANNEL_ID cfg)), (chat_mismatch cfg m),
    (forward_mismatch cfg m); auto.
Qed.

Lemma onTest_frame (cfg : config) (net : network) (st : state) :
  same_counters st (onTest cfg net st) /\
  requests (onTest cfg net st) =
    requests st ++ [ingest_request cfg testMessage].
Proof.
  unfold onTest. rewrite forwardToWebsite_unfold. simpl.
  unfold same_counters. simpl. auto.
Qed.

Lemma handle_counted (cfg : config) (st : state) (u : update * network) :
  counted st -> counted (handle cfg st u).
Proof.
  intros H. destruct u as [[m | m | | | ] net]; simpl.
  - destruct (onText_cases cfg m net st) as [-> | ->];
      auto using processMessage_counted.
  - unfold onForwardDate. destruct (fwd_text m) as [t | ]; [ | exact H].
    destruct (JS.truthy t); auto using processMessage_counted.
  - exact H.
  - exact H.
  - destruct (onTest_frame cfg net st) as ((Hr & Hf & Hi) & _).
    unfold counted in *. rewrite Hr, Hf, Hi. exact H.
Qed.

Lemma fold_handle_counted (cfg : config) (updates : list (update * network))
  (st : state) :
  counted st -> counted (fold_left (handle cfg) updates st).
Proof.
  revert st. induction updates as [ | u us IH]; intros st H; simpl.
  - exact H.
  - apply IH, handle_counted, H.
Qed.

(** *** Suspended handlers *)

Lemma processMessage_split (cfg : config) (text : jsstring) (net : network)
  (st : state) :
  processMessage cfg text net st =
  let (st1, waits) := start_processing cfg text st in
  if waits then finish_processing net st1 else st1.
Proof.
  unfold processMessage, start_processing, finish_processing, forwardToWebsite.
  destruct (isValidSignalMessage text); simpl; [ | reflexivity].
  destruct (forward_outcome net) as [success line]. reflexivity.
Qed.

Lemma onTest_split (cfg : config) (net : network) (st : state) :
  onTest cfg net st = finish_test net (start_test cfg st).
Proof.
  unfold onTest, finish_test, start_test, forwardToWebsite.
  destruct (forward_outcome net) as [success line]. reflexivity.
Qed.

Lemma start_processing_counters (cfg : config) (text : jsstring) (st : state) :
  let st' := fst (start_processing cfg text st) in
  let waits := snd (start_processing cfg text st) in
  messagesReceived st' = (messagesReceived st + 1)%N /\
  messagesForwarded st' = messagesForwarded st /\
  messagesIgnored st' = (messagesIgnored st + if waits then 0 else 1)%N.
Proof.
  unfold start_processing.
  destruct (isValidSignalMessage text); simpl; repeat split; lia.
Qed.

Lemma finish_processing_counters (net : network) (st : state) :
  let st' := finish_processing net st in
  messagesReceived st' = messagesReceived st /\
  (messagesForwarded st' <= messagesForwarded st + 1)%N /\
  messagesIgnored st' = messagesIgnored st.
Proof.
  unfold finish_processing.
  destruct (forward_outcome net) as [[ | ] line]; simpl;
    match goal with |- context [if ?b then _ else _] => destruct b end;
    simpl; repeat split; lia.
Qed.

Lemma finish_test_counters (net : network) (st : state) :
  same_counters st (finish_test net st).
Proof.
  unfold finish_test, same_counters.
  destruct (forward_outcome net) as [success line]. simpl. auto.
Qed.

Lemma arrive_counted (cfg : config) (u : update) (w : world) :
  counted_with_suspended w -> counted_with_suspended (arrive cfg u w).
Proof.
  intros H.
  assert (P : forall t,
    counted_with_suspended
      (let (st, waits) := start_processing cfg t (now w) in
       {| now := st;
          suspended_messages :=
            if waits then S (suspended_messages w) else suspended_messages w;
          suspended_tests := suspended_tests w |})).
  { intros t.
    pose proof (start_processing_counters cfg t (now w)) as (Hr & Hf & Hi).
    destruct (start_processing cfg t (now w)) as [st waits].
    unfold counted_with_suspended in *. simpl in *.
    rewrite Hr, Hf, Hi. destruct waits; lia. }
  destruct u as [m | m | | | ]; unfold arrive.
  - destruct (JS.truthy (SOURCE_CHANNEL_ID cfg)), (chat_mismatch cfg m),
      (forward_mismatch cfg m); auto.
  - destruct (fwd_text m) as [t | ]; [ | exact H].
    destruct (JS.truthy t); auto.
  - exact H.
  - exact H.
  - exact H.
Qed.

Lemma turn_counted (cfg : config) (w w' : world) :
  turn cfg w w' -> counted_with_suspended w -> counted_with_suspended w'.
Proof.
  intros T H.
  destruct T as [u w | net st n k | net st n k].
  - apply arrive_counted, H.
  - unfold counted_with_suspended in *. simpl in *.
    destruct (finish_processing_counters net st) as (-> & Hf & ->). lia.
  - unfold counted_with_suspended in *. simpl in *.
    destruct (finish_test_counters net st) as (-> & -> & ->). exact H.
Qed.

Lemma reachable_counted (cfg : config) (w : world) :
  reachable cfg w -> counted_with_suspended w.
Proof.
  induction 1 as [ | w w' R IH T].
  - unfold counted_with_suspended. simpl. lia.
  - exact (turn_counted T IH).
Qed.

(** Handling an update to completion is an arrival followed at once by
    the resumption of what it suspended. *)
Lemma handle_reachable (cfg : config) (u : update) (net : network)
  (st : state) :
  reachable cfg {| now := st; suspended_messages := 0;
                   suspended_tests := 0 |} ->
  reachable cfg {| now := handle cfg st (u, net); suspended_messages := 0;
                   suspended_tests := 0 |}.
Proof.
  intros R.
  set (w := {| now := st; suspended_messages := 0;
               suspended_tests := 0 |}) in *.
  assert (A : reachable cfg (arrive cfg u w))
    by (apply AfterTurn with (w := w); [exact R | constructor]).
  assert (P : forall t,
    reachable cfg
      (let (st1, waits) := start_processing cfg t st in
       {| now := st1;
          suspended_messages := if waits then 1 else 0;
          suspended_tests := 0 |}) ->
    reachable cfg {| now := processMessage cfg t net st;
                     suspended_messages := 0; suspended_tests := 0 |}).
  { intros t Rt. rewrite processMessage_split.
    destruct (start_processing cfg t st) as [st1 [ | ]]; [ | exact Rt].
    eapply AfterTurn; [exact Rt | ]. apply MessageResumes. }
  destruct u as [m | m | | | ]; simpl handle; unfold arrive in A; simpl in A.
  - unfold onText.
    destruct (JS.truthy (SOURCE_CHANNEL_ID cfg)), (chat_mismatch cfg m),
      (forward_mismatch cfg m); auto.
  - unfold onForwardDate. destruct (fwd_text m) as [t | ]; [ | exact A].
    destruct (JS.truthy t); auto.
  - exact A.
  - exact A.
  - rewrite onTest_split. eapply AfterTurn; [exact A | ]. apply TestResumes.
Qed.

Lemma run_reachable (cfg : config) (updates : list (update * network)) :
  reachable cfg {| now := run cfg updates; suspended_messages := 0;
                   suspended_tests := 0 |}.
Proof.
  unfold run.
  assert (G : forall us st,
    reachable cfg {| now := st; suspended_messages := 0;
                     suspended_tests := 0 |} ->
    reachable cfg {| now := fold_left (handle cfg) us st;
                     suspended_messages := 0; suspended_tests := 0 |}).
  { induction us as [ | [u net] us IH]; intros st R; simpl.
    - exact R.
    - apply IH, handle_reachable, R. }
  apply G. constructor.
Qed.

(** C2. In every state the dispatcher reaches, forwarded + ignored is at
    most received.  A processed message adds one to received and at most
    one to forwarded or to ignored, never to both; a text message is
    either processed or, on a channel mismatch, leaves the state as it
    was.  The bound also holds at every turn of the event loop, with
    handlers suspended on their requests. *)
Theorem counters_invariant (cfg : config) :
  (forall updates,
     (messagesForwarded (run cfg updates) + messagesIgnored (run cfg updates)
      <= messagesReceived (run cfg updates))%N) /\
  (forall w,
     reachable cfg w ->
     (messagesForwarded (now w) + messagesIgnored (now w)
      <= messagesReceived (now w))%N) /\
  (forall text net st,
     let st' := processMessage cfg text net st in
     messagesReceived st' = (messagesReceived st + 1)%N /\
     ((messagesForwarded st' = messagesForwarded st /\
       messagesIgnored st' = messagesIgnored st) \/
      (messagesForwarded st' = (messagesForwarded st + 1)%N /\
       messagesIgnored st' = messagesIgnored st) \/
      (messagesForwarded st' = messagesForwarded st /\
       messagesIgnored st' = (messagesIgnored st + 1)%N))) /\
  (forall m net st,
     onText cfg m net st = st \/
     onText cfg m net st = processMessage cfg (text m) net st).
Proof.
  split; [ | split; [ | split]].
  - intros updates. apply fold_handle_counted. unfold counted. simpl. lia.
  - intros w R. apply reachable_counted in R.
    unfold counted_with_suspended in R. lia.
  - intros text net st st'.
    destruct (processMessage_counters cfg text net st) as (Hr & Hf & Hi).
    fold st' in Hr, Hf, Hi. split; [exact Hr | ].
    rewrite Hf, Hi.
    destruct (isValidSignalMessage text); simpl;
      [destruct (fst (forward_outcome net)) | ]; simpl.
    + right. left. lia.
    + left. lia.
    + right. right. lia.
  - apply onText_cases.
Qed.

(** *** The program's routing *)

Lemma deliver_text (cfg : config) (m : message) (t : jsstring)
  (net : network) (st : state) :
  msg_text m = Some t ->
  deliver cfg st (m, net) = onText cfg (as_text_message m t) net st.
Proof.
  intros H. unfold deliver, middlewares. simpl. unfold on_text.
  rewrite H. reflexivity.
Qed.

Lemma deliver_without_text (cfg : config) (m : message) (net : network)
  (st : state) :
  msg_text m = None -> deliver cfg st (m, net) = st.
Proof.
  intros H. unfold deliver, middlewares. simpl.
  unfold on_text, on_forward_date, on_command, onForwardDate. simpl.
  rewrite H. destruct (msg_forward_date m); reflexivity.
Qed.

(** Every state of the program is a state of [run]. *)
Lemma program_is_a_run (cfg : config) (updates : list (message * network)) :
  exists us, program cfg updates = run cfg us.
Proof.
  unfold program, run.
  assert (G : forall st, exists us,
    fold_left (deliver cfg) updates st = fold_left (handle cfg) us st).
  { induction updates as [ | [m net] updates IH]; intros st.
    - exists []. reflexivity.
    - simpl fold_left at 1. destruct (msg_text m) as [t | ] eqn:Ht.
      + rewrite (deliver_text cfg m net st Ht).
        destruct (IH (onText cfg (as_text_message m t) net st)) as (us & E).
        exists ((TextMessage (as_text_message m t), net) :: us). exact E.
      + rewrite (deliver_without_text cfg m net st Ht). apply IH. }
  apply G.
Qed.

Lemma eqb_neq (a b : jsstring) : a <> b -> JS.eqb a b = false.
Proof.
  intros H. destruct (JS.eqb a b) eqn:E; [ | reflexivity].
  apply eqb_eq in E. contradiction.
Qed.

Lemma replace_prefix (pat rep s : jsstring) :
  JS.starts_with pat s = true ->
  JS.replace pat rep s = rep ++ skipn (List.length pat) s.
Proof.
  intros H. destruct s as [ | c s]; simpl; rewrite H; reflexivity.
Qed.

(** C4, as amended. With a source channel configured, a text message is
    dropped by the program, with no counter moved, nothing classified
    and no request sent, when its chat identity is neither the
    configured value nor the configured value with its first -100
    replaced by -, and its forward origin is absent or is not the
    configured value with its first -100 removed.  For a configured
    value -100 followed by some rest these two forms are - followed by
    the rest, and the rest alone. *)
Theorem mismatching_text_message_is_discarded (cfg : config) (m : message)
  (t : jsstring) (net : network) (st : state) :
  SOURCE_CHANNEL_ID cfg <> [] ->
  msg_text m = Some t ->
  JS.toString (msg_chat_id m) <> SOURCE_CHANNEL_ID cfg ->
  JS.toString (msg_chat_id m) <>
    JS.replace (units "-100") (units "-") (SOURCE_CHANNEL_ID cfg) ->
  (forall id, msg_forward_from_chat m = Some id ->
              JS.toString id <>
                JS.replace (units "-100") (units "") (SOURCE_CHANNEL_ID cfg)) ->
  deliver cfg st (m, net) = st /\
  (forall rest,
     SOURCE_CHANNEL_ID cfg = units "-100" ++ rest ->
     JS.replace (units "-100") (units "-") (SOURCE_CHANNEL_ID cfg) =
       units "-" ++ rest /\
     JS.replace (units "-100") (units "") (SOURCE_CHANNEL_ID cfg) = rest).
Proof.
  intros Hcfg Ht Hraw Hshort Hfwd. split.
  - rewrite (deliver_text cfg m net st Ht). unfold onText.
    assert (Hc : chat_mismatch cfg (as_text_message m t) = true).
    { unfold chat_mismatch. simpl.
      rewrite (eqb_neq Hraw), (eqb_neq Hshort). reflexivity. }
    assert (Hf : forward_mismatch cfg (as_text_message m t) = true).
    { unfold forward_mismatch. simpl.
      destruct (msg_forward_from_chat m) as [id | ]; [ | reflexivity].
      rewrite (eqb_neq (Hfwd id eq_refl)). reflexivity. }
    rewrite Hc, Hf.
    destruct (SOURCE_CHANNEL_ID cfg); [congruence | reflexivity].
  - intros rest E.
    assert (P : JS.starts_with (units "-100") (SOURCE_CHANNEL_ID cfg) = true).
    { rewrite E. reflexivity. }
    rewrite !(@replace_prefix _ _ _ P), E. split; reflexivity.
Qed.

Lemma mismatching_text_message_is_discarded_witness :
  deliver restricted_config initial_state (stranger_message, Unreachable) =
    initial_state /\
  (forall rest,
     SOURCE_CHANNEL_ID restricted_config = units "-100" ++ rest ->
     JS.replace (units "-100") (units "-")
       (SOURCE_CHANNEL_ID restricted_config) = units "-" ++ rest /\
     JS.replace (units "-100") (units "")
       (SOURCE_CHANNEL_ID restricted_config) = rest).
Proof.
  apply (mismatching_text_message_is_discarded restricted_config
           stranger_message Unreachable initial_state (t := testMessage)).
  - discriminate.
  - reflexivity.
  - intros H. vm_compute in H. discriminate.
  - intros H. vm_compute in H. discriminate.
  - intros id H. simpl in H. discriminate.
Defined.

(** C4, as stated, fails: the chat identity -1234567890 differs from the
    configured -1001234567890 and the message is forwarded from nowhere,
    yet the message is processed, counted and sent. *)
Lemma short_form_chat_differs_yet_is_processed :
  originating_identity short_form_chat <> SOURCE_CHANNEL_ID restricted_config /\
  messagesReceived
    (onText restricted_config short_form_chat Unreachable initial_state)
    = 1%N /\
  requests
    (onText restricted_config short_form_chat Unreachable initial_state)
    = [ingest_request restricted_config testMessage].
Proof.
  split; [intros H; vm_compute in H; discriminate | ].
  vm_compute. auto.
Qed.



(** C10. The code at the failing input: the message /test is taken by
    the text handler, which is registered before the command; it is
    counted as received and as ignored, and neither a request nor a
    reply goes out, whatever the network would answer. *)
Theorem test_command_is_taken_by_text_handler (net : network) :
  msg_command test_command_message = Some "test"%string /\
  messagesReceived
    (deliver default_config initial_state (test_command_message, net))
    = 1%N /\
  messagesIgnored
    (deliver default_config initial_state (test_command_message, net))
    = 1%N /\
  requests
    (deliver default_config initial_state (test_command_message, net))
    = [] /\
  replies
    (deliver default_config initial_state (test_command_message, net))
    = [].
Proof. vm_compute. auto. Qed.

(** The summary is reached on the branch of a signal. *)
Lemma signal_on_tenth_logs_summary (cfg : config) (text : jsstring)
  (net : network) (st : state) :
  isValidSignalMessage text = true ->
  ((messagesReceived st + 1) mod 10 = 0)%N ->
  let st' := processMessage cfg text net st in
  console st' =
    console st ++ [snd (forward_outcome net)] ++
    [Stats (messagesReceived st') (messagesForwarded st')
           (messagesIgnored st')].
Proof.
  intros Hv Hten. unfold processMessage.
  rewrite forwardToWebsite_unfold, Hv. simpl.
  destruct (fst (forward_outcome net)); simpl;
    apply N.eqb_eq in Hten; rewrite Hten; simpl;
    rewrite <- app_assoc; reflexivity.
Qed.

(** The two classifier scenarios of the specification. *)
Example scenario_new_signal : isValidSignalMessage testMessage = true.
Proof. vm_compute. reflexivity. Qed.

Example scenario_chatter : isValidSignalMessage chatter = false.
Proof. vm_compute. reflexivity. Qed.

(** C5. The code at the failing input: ten messages that are no signals
    bring received to ten, yet no summary line is ever logged, because
    the branch for ignored messages returns before the summary. *)
Theorem tenth_ignored_message_logs_no_summary :
  let st := run default_config (repeat (says chatter, Unreachable) 10) in
  messagesReceived st = 10%N /\
  (messagesReceived st mod 10 = 0)%N /\
  existsb is_stats_line (console st) = false.
Proof. vm_compute. auto. Qed.

(* ================================================================== *)
(** ** More about the classifier *)

(** X1. The stop-loss family matches exactly the texts that contain the
    phrase hit sl from long or short signal and a price phrase
    (price : number in token), each anywhere in the text. *)
Theorem stop_loss_hit_iff_two_phrases (text : jsstring) :
  isSlHit text = true <->
  contains hit_sl_phrase text /\ contains price_in_phrase text.
Proof.
  unfold isSlHit. rewrite andb_true_iff.
  rewrite (test_contains text describes_hit_sl).
  rewrite (test_contains text describes_price_in).
  reflexivity.
Qed.

(** X2. The take-profit family matches exactly the texts that contain a
    take-profit phrase and a price phrase; the optional "at" of its
    second pattern neither adds nor removes a text. *)
Theorem take_profit_update_iff_two_phrases (text : jsstring) :
  isTpUpdate text = true <->
  contains take_profit_from_phrase text /\ contains price_in_phrase text.
Proof.
  unfold isTpUpdate. rewrite andb_true_iff.
  rewrite (test_contains text describes_tp_from), test_at_price_in.
  reflexivity.
Qed.

(** *** Letter case *)

Lemma lower_bounds (c : code_unit) :
  is_lower c = true -> (97 <= c /\ c <= 122)%N.
Proof.
  unfold is_lower, in_range. rewrite andb_true_iff, !N.leb_le. tauto.
Qed.

Ltac compare_false :=
  first [ apply N.eqb_neq; lia
        | apply andb_false_iff; rewrite !N.leb_gt; lia ].

Ltac all_false :=
  repeat (apply orb_false_intro; [ | compare_false]); compare_false.

Lemma canonicalize_idempotent (c : code_unit) :
  canonicalize (canonicalize c) = canonicalize c.
Proof.
  unfold canonicalize at 2 3. destruct (is_lower c) eqn:L; [ | ].
  - apply lower_bounds in L. unfold canonicalize.
    replace (is_lower (c - 32)%N) with false; [reflexivity | ].
    symmetry. unfold is_lower, in_range. compare_false.
  - unfold canonicalize. rewrite L. reflexivity.
Qed.

Lemma is_digit_canonicalize (c : code_unit) :
  is_digit (canonicalize c) = is_digit c.
Proof.
  unfold canonicalize. destruct (is_lower c) eqn:L; [ | reflexivity].
  apply lower_bounds in L. unfold is_digit, in_range.
  transitivity false; [ | symmetry]; compare_false.
Qed.

Lemma is_space_canonicalize (c : code_unit) :
  is_space (canonicalize c) = is_space c.
Proof.
  unfold canonicalize. destruct (is_lower c) eqn:L; [ | reflexivity].
  apply lower_bounds in L. unfold is_space, in_range.
  transitivity false; [ | symmetry]; all_false.
Qed.

Lemma is_word_canonicalize (c : code_unit) :
  is_word (canonicalize c) = is_word c.
Proof.
  unfold canonicalize. destruct (is_lower c) eqn:L; [ | reflexivity].
  unfold is_word. rewrite L. apply lower_bounds in L.
  replace (is_upper (c - 32)%N) with true; [rewrite orb_true_r; reflexivity | ].
  symmetry. unfold is_upper, in_range. rewrite andb_true_iff, !N.leb_le. lia.
Qed.

Lemma member_canonicalize (cls : list atom) (c : code_unit) :
  member cls (canonicalize c) = member cls c.
Proof.
  unfold member. induction cls as [ | a cls IH]; simpl; [reflexivity | ].
  rewrite IH. f_equal. destruct a as [c0 | | | ]; simpl.
  - rewrite canonicalize_idempotent. reflexivity.
  - apply is_digit_canonicalize.
  - apply is_word_canonicalize.
  - apply is_space_canonicalize.
Qed.

Lemma deriv_canonicalize (r : regex) (c : code_unit) :
  deriv (canonicalize c) r = deriv c r.
Proof.
  induction r as [ | | cls | r1 IH1 r2 IH2 | r1 IH1 r2 IH2 | r IH ]; simpl;
    rewrite ?member_canonicalize, ?IH1, ?IH2, ?IH; reflexivity.
Qed.

Lemma match_here_canonicalize (r : regex) (s : jsstring) :
  match_here r (map canonicalize s) = match_here r s.
Proof.
  revert r. induction s as [ | c s IH]; intros r; simpl; [reflexivity | ].
  rewrite deriv_canonicalize, IH. reflexivity.
Qed.

Lemma test_canonicalize (r : regex) (s : jsstring) :
  test r (map canonicalize s) = test r s.
Proof.
  induction s as [ | c s IH]; [reflexivity | ].
  change (test r (map canonicalize (c :: s)))
    with (match_here r (map canonicalize (c :: s)) ||
          test r (map canonicalize s)).
  rewrite match_here_canonicalize, IH. reflexivity.
Qed.

Lemma isValidSignalMessage_canonicalize (text : jsstring) :
  isValidSignalMessage (map canonicalize text) = isValidSignalMessage text.
Proof.
  unfold isValidSignalMessage, isNewSignal, isTpUpdate, isSlHit.
  rewrite !test_canonicalize. reflexivity.
Qed.

(** X3. The verdict of the classifier does not depend on the case of
    ASCII letters: two texts that agree once their letters a to z are
    put in upper case get the same verdict. *)
Theorem classifier_ignores_letter_case (text1 text2 : jsstring) :
  map canonicalize text1 = map canonicalize text2 ->
  isValidSignalMessage text1 = isValidSignalMessage text2.
Proof.
  intros E.
  rewrite <- (isValidSignalMessage_canonicalize text1), E.
  apply isValidSignalMessage_canonicalize.
Qed.

Lemma classifier_ignores_letter_case_witness :
  map canonicalize stop_loss_sample = map canonicalize stop_loss_shouted /\
  isValidSignalMessage stop_loss_sample =
    isValidSignalMessage stop_loss_shouted.
Proof.
  assert (E : map canonicalize stop_loss_sample =
              map canonicalize stop_loss_shouted)
    by (vm_compute; reflexivity).
  split; [exact E | ].
  apply (classifier_ignores_letter_case stop_loss_sample stop_loss_shouted E).
Defined.

(** *** Text around a signal *)

Lemma test_in_context (r : regex) (before text after : jsstring) :
  test r text = true -> test r (before ++ text ++ after) = true.
Proof.
  rewrite !test_spec. intros (b & m & a & -> & H).
  exists (before ++ b), m, (a ++ after). split; [ | exact H].
  rewrite <- !app_assoc. reflexivity.
Qed.

(** X4. A signal stays a signal with any text put before and after it:
    headers, footers and other lines do not turn a match into a
    rejection. *)
Theorem signal_survives_surrounding_text (before text after : jsstring) :
  isValidSignalMessage text = true ->
  isValidSignalMessage (before ++ text ++ after) = true.
Proof.
  unfold isValidSignalMessage, isNewSignal, isTpUpdate, isSlHit.
  rewrite !orb_true_iff, !andb_true_iff.
  intros [[H | H] | H]; [left; left | left; right | right];
    repeat match goal with
           | H : _ /\ _ |- _ => destruct H
           end;
    repeat split; apply test_in_context; assumption.
Qed.

Lemma signal_survives_surrounding_text_witness :
  isValidSignalMessage testMessage = true /\
  isValidSignalMessage
    (units "WAZIR FOREX ALGO " ++ testMessage ++ units " Any inquiries Dm")
  = true.
Proof.
  assert (H : isValidSignalMessage testMessage = true)
    by (vm_compute; reflexivity).
  split; [exact H | ].
  apply (signal_survives_surrounding_text (units "WAZIR FOREX ALGO ")
           testMessage (units " Any inquiries Dm") H).
Defined.

(** *** The colon *)

Lemma spells_colon (s : jsstring) : spells ":" s -> s = [58%N].
Proof.
  unfold spells. change (map canonicalize (units ":")) with [58%N].
  destruct s as [ | c [ | d s]]; simpl; intros E; try discriminate.
  injection E as E. f_equal.
  unfold canonicalize in E. destruct (is_lower c) eqn:L; [ | exact E].
  apply lower_bounds in L. lia.
Qed.

Lemma contains_colon (p q : jsstring -> Prop) (ph : phrase)
  (text : jsstring) :
  contains (p :: q :: spells ":" :: ph) text -> In 58%N text.
Proof.
  intros (b & m & a & -> & H).
  apply fits_cons in H as (s1 & m1 & -> & _ & H).
  apply fits_cons in H as (s2 & m2 & -> & _ & H).
  apply fits_cons in H as (s3 & m3 & -> & Hc & _).
  apply spells_colon in Hc as ->.
  rewrite !in_app_iff. simpl. tauto.
Qed.

(** X5. Every text the classifier accepts has a colon in it: a text
    without a colon is never forwarded. *)
Theorem signal_has_colon (text : jsstring) :
  isValidSignalMessage text = true -> In 58%N text.
Proof.
  unfold isValidSignalMessage. rewrite !orb_true_iff.
  intros [[H | H] | H].
  - apply isNewSignal_shape in H as (H & _).
    exact (contains_colon H).
  - unfold isTpUpdate in H. apply andb_prop in H as [_ H].
    apply test_at_price_in in H. exact (contains_colon H).
  - unfold isSlHit in H. apply andb_prop in H as [_ H].
    apply (test_contains text describes_price_in) in H.
    exact (contains_colon H).
Qed.

Lemma signal_has_colon_witness :
  isValidSignalMessage take_profit_sample = true /\
  In 58%N take_profit_sample.
Proof.
  assert (H : isValidSignalMessage take_profit_sample = true)
    by (vm_compute; reflexivity).
  split; [exact H | ].
  apply (signal_has_colon take_profit_sample H).
Defined.

(* ================================================================== *)
(** ** More about the dispatcher *)

(** A property of the process state that every step of every handler
    keeps holds at every turn of the event loop. *)
Lemma reachable_state_invariant (cfg : config) (P : state -> Prop) :
  P initial_state ->
  (forall t st, counted st -> P st -> P (fst (start_processing cfg t st))) ->
  (forall net st, P st -> P (finish_processing net st)) ->
  (forall st, counted st -> P st -> P (onStart st)) ->
  (forall st, counted st -> P st -> P (onStats cfg st)) ->
  (forall st, P st -> P (start_test cfg st)) ->
  (forall net st, P st -> P (finish_test net st)) ->
  forall w, reachable cfg w -> P (now w).
Proof.
  intros H0 Hs Hf Hstart Hstats Ht Hft w R.
  induction R as [ | w w' R IH T]; [exact H0 | ].
  assert (C : counted (now w)).
  { apply reachable_counted in R.
    unfold counted, counted_with_suspended in *. lia. }
  destruct T as [u w | net st n k | net st n k]; simpl in *.
  - assert (Q : forall t,
      P (now (let (st, waits) := start_processing cfg t (now w) in
              {| now := st;
                 suspended_messages :=
                   if waits then S (suspended_messages w)
                   else suspended_messages w;
                 suspended_tests := suspended_tests w |}))).
    { intros t. specialize (Hs t (now w) C IH).
      destruct (start_processing cfg t (now w)) as [st waits]. exact Hs. }
    destruct u as [m | m | | | ]; unfold arrive.
    + destruct (JS.truthy (SOURCE_CHANNEL_ID cfg)), (chat_mismatch cfg m),
        (forward_mismatch cfg m); auto.
    + destruct (fwd_text m) as [t | ]; [ | exact IH].
      destruct (JS.truthy t); auto.
    + simpl. auto.
    + simpl. auto.
    + simpl. auto.
  - apply Hf, IH.
  - apply Hft, IH.
Qed.

Lemma run_state_invariant (cfg : config) (P : state -> Prop) :
  (forall w, reachable cfg w -> P (now w)) ->
  forall updates, P (run cfg updates).
Proof. intros H updates. exact (H _ (run_reachable cfg updates)). Qed.

(** *** What the two halves of the handlers write *)

Lemma forward_outcome_line (net : network) :
  is_signal_forwarded_line (snd (forward_outcome net)) =
    fst (forward_outcome net) /\
  is_ignored_line (snd (forward_outcome net)) = false /\
  is_stats_line (snd (forward_outcome net)) = false.
Proof.
  unfold forward_outcome, forward_attempt.
  destruct net as [ | [ | data ] ]; simpl; auto.
  destruct (get_status data) as [v | e]; simpl; auto.
  destruct (strict_equals v "success"); simpl;
    [destruct (success_label data); simpl; auto | ].
  destruct (strict_equals v "ignored"); simpl; auto.
Qed.

Lemma start_processing_output (cfg : config) (t : jsstring) (st : state) :
  let st' := fst (start_processing cfg t st) in
  replies st' = replies st /\
  if isValidSignalMessage t then
    console st' = console st /\
    requests st' = requests st ++ [ingest_request cfg t]
  else
    console st' = console st ++ [IgnoredNonSignal (messagesIgnored st + 1)] /\
    requests st' = requests st.
Proof.
  unfold start_processing. destruct (isValidSignalMessage t); simpl; auto.
Qed.

Lemma finish_processing_output (net : network) (st : state) :
  let st' := finish_processing net st in
  let forwarded :=
    (messagesForwarded st + if fst (forward_outcome net) then 1 else 0)%N in
  replies st' = replies st /\ requests st' = requests st /\
  messagesForwarded st' = forwarded /\
  console st' =
    console st ++ [snd (forward_outcome net)] ++
    if N.eqb (messagesReceived st mod 10) 0
    then [Stats (messagesReceived st) forwarded (messagesIgnored st)]
    else [].
Proof.
  unfold finish_processing.
  destruct (forward_outcome net) as [[ | ] line]; simpl;
    destruct (N.eqb (messagesReceived st mod 10) 0); simpl;
    rewrite ?N.add_0_r, <- ?app_assoc; auto.
Qed.

Lemma finish_test_output (net : network) (st : state) :
  let st' := finish_test net st in
  requests st' = requests st /\
  console st' = console st ++ [snd (forward_outcome net)] /\
  replies st' =
    replies st ++ [if fst (forward_outcome net) then TestForwardedReply
                   else TestFailedReply].
Proof.
  unfold finish_test. destruct (forward_outcome net) as [ok line].
  simpl. auto.
Qed.

Lemma count_app {A : Type} (p : A -> bool) (l : list A) (x : A) :
  N.of_nat (List.length (filter p (l ++ [x]))) =
  (N.of_nat (List.length (filter p l)) + if p x then 1 else 0)%N.
Proof.
  rewrite filter_app, length_app. simpl. destruct (p x); simpl; lia.
Qed.

(** *** Only signals are sent *)

Lemma sends_only_signals_reachable (cfg : config) (w : world) :
  reachable cfg w -> sends_only_signals cfg (now w).
Proof.
  apply reachable_state_invariant; unfold sends_only_signals.
  - constructor.
  - intros t st _ H.
    pose proof (start_processing_output cfg t st) as (_ & Ho).
    destruct (isValidSignalMessage t) eqn:Hv; destruct Ho as (_ & ->).
    + apply Forall_app. split; [exact H | ].
      constructor; [ | constructor]. simpl. auto.
    + exact H.
  - intros net st H.
    destruct (finish_processing_output net st) as (_ & -> & _). exact H.
  - intros st _ H. exact H.
  - intros st _ H. exact H.
  - intros st H. simpl. apply Forall_app. split; [exact H | ].
    constructor; [ | constructor]. simpl. split; [reflexivity | ].
    vm_compute. reflexivity.
  - intros net st H.
    destruct (finish_test_output net st) as (-> & _). exact H.
Qed.

(** X6. Whatever updates arrive and however the network answers, every
    request the bot has sent went to the configured ingestion endpoint
    with the bearer key and carries, unchanged, a text that the
    classifier accepts: nothing else is ever forwarded. *)
Theorem only_signals_are_sent (cfg : config) :
  (forall updates, sends_only_signals cfg (run cfg updates)) /\
  (forall w, reachable cfg w -> sends_only_signals cfg (now w)).
Proof.
  split.
  - apply run_state_invariant. apply sends_only_signals_reachable.
  - apply sends_only_signals_reachable.
Qed.

(** *** Accounts *)

Lemma every_message_accounted_reachable (cfg : config) (w : world) :
  reachable cfg w -> every_message_accounted (now w).
Proof.
  apply reachable_state_invariant;
    unfold every_message_accounted, count_replies.
  - reflexivity.
  - intros t st _ H.
    pose proof (start_processing_output cfg t st) as (-> & Ho).
    pose proof (start_processing_counters cfg t st) as (-> & _ & ->).
    unfold start_processing in *.
    destruct (isValidSignalMessage t); destruct Ho as (_ & ->); simpl.
    + rewrite length_app. simpl. lia.
    + lia.
  - intros net st H.
    destruct (finish_processing_output net st) as (-> & -> & _).
    destruct (finish_processing_counters net st) as (-> & _ & ->). exact H.
  - intros st _ H. simpl. rewrite count_app. simpl. lia.
  - intros st _ H. simpl. rewrite count_app. simpl. lia.
  - intros st H. simpl. rewrite count_app, length_app. simpl. lia.
  - intros net st H.
    destruct (finish_test_output net st) as (-> & _ & ->).
    destruct (finish_test_counters net st) as (-> & _ & ->).
    rewrite count_app. destruct (fst (forward_outcome net)); simpl; lia.
Qed.

(** X7. At every moment the number of requests sent equals the messages
    received and not ignored plus the test commands started: a received
    message is either ignored or sent exactly once, never both and never
    twice. *)
Theorem every_message_ignored_or_sent_once (cfg : config) :
  (forall updates, every_message_accounted (run cfg updates)) /\
  (forall w, reachable cfg w -> every_message_accounted (now w)).
Proof.
  split.
  - apply run_state_invariant. apply every_message_accounted_reachable.
  - apply every_message_accounted_reachable.
Qed.

Lemma counters_mirror_console_reachable (cfg : config) (w : world) :
  reachable cfg w -> counters_mirror_console (now w).
Proof.
  apply reachable_state_invariant;
    unfold counters_mirror_console, count_replies, count_lines.
  - split; reflexivity.
  - intros t st _ (Hi & Hf).
    pose proof (start_processing_output cfg t st) as (-> & Ho).
    pose proof (start_processing_counters cfg t st) as (_ & -> & ->).
    unfold start_processing in *.
    destruct (isValidSignalMessage t); destruct Ho as (-> & _); simpl.
    + split; lia.
    + rewrite !count_app. simpl. split; lia.
  - intros net st (Hi & Hf).
    destruct (finish_processing_output net st) as (-> & _ & -> & ->).
    destruct (finish_processing_counters net st) as (_ & _ & ->).
    destruct (forward_outcome_line net) as (Hs & Hg & _).
    rewrite app_assoc.
    destruct (N.eqb (messagesReceived st mod 10) 0);
      rewrite ?app_nil_r, !count_app; simpl;
      rewrite ?count_app, Hs, Hg; split; lia.
  - intros st _ (Hi & Hf). simpl. rewrite count_app. simpl. split; lia.
  - intros st _ (Hi & Hf). simpl. rewrite count_app. simpl. split; lia.
  - intros st (Hi & Hf). simpl. rewrite count_app. simpl. split; lia.
  - intros net st (Hi & Hf).
    destruct (finish_test_output net st) as (_ & -> & ->).
    destruct (finish_test_counters net st) as (_ & -> & ->).
    destruct (forward_outcome_line net) as (Hs & Hg & _).
    rewrite !count_app, Hs, Hg.
    destruct (fst (forward_outcome net)); simpl; split; lia.
Qed.

(** X8. The counters agree with the console: the ignored counter is the
    number of ignored-message lines, and the forwarded counter is the
    number of success lines of the forwarder less those that answer a
    test command. *)
Theorem counters_agree_with_console (cfg : config) :
  (forall updates, counters_mirror_console (run cfg updates)) /\
  (forall w, reachable cfg w -> counters_mirror_console (now w)).
Proof.
  split.
  - apply run_state_invariant. apply counters_mirror_console_reachable.
  - apply counters_mirror_console_reachable.
Qed.

(** *** Summaries and replies *)

Lemma summaries_in_order_reachable (cfg : config) (w : world) :
  reachable cfg w ->
  counted_with_suspended w /\ Forall summary_in_order (console (now w)).
Proof.
  intros R. split; [exact (reachable_counted R) | ].
  induction R as [ | w w' R IH T]; [constructor | ].
  pose proof (reachable_counted R) as C.
  destruct T as [u w | net st n k | net st n k]; simpl in *.
  - assert (Q : forall t,
      Forall summary_in_order
        (console (now (let (st, waits) := start_processing cfg t (now w) in
              {| now := st;
                 suspended_messages :=
                   if waits then S (suspended_messages w)
                   else suspended_messages w;
                 suspended_tests := suspended_tests w |})))).
    { intros t.
      pose proof (start_processing_output cfg t (now w)) as (_ & Ho).
      destruct (start_processing cfg t (now w)) as [st waits]. simpl in *.
      destruct (isValidSignalMessage t); destruct Ho as (-> & _);
        [exact IH | ].
      apply Forall_app. split; [exact IH | ].
      constructor; [exact I | constructor]. }
    destruct u as [m | m | | | ]; unfold arrive.
    + destruct (JS.truthy (SOURCE_CHANNEL_ID cfg)), (chat_mismatch cfg m),
        (forward_mismatch cfg m); auto.
    + destruct (fwd_text m) as [t | ]; [ | exact IH].
      destruct (JS.truthy t); auto.
    + exact IH.
    + exact IH.
    + exact IH.
  - destruct (finish_processing_output net st) as (_ & _ & _ & ->).
    destruct (forward_outcome_line net) as (_ & _ & Hs).
    apply Forall_app. split; [exact IH | ].
    constructor.
    { destruct (snd (forward_outcome net)); try exact I. discriminate. }
    destruct (N.eqb_spec (messagesReceived st mod 10) 0) as [E | E];
      constructor; [ | constructor].
    unfold counted_with_suspended in C. simpl in *.
    split; [exact E | ].
    destruct (fst (forward_outcome net)); lia.
  - destruct (finish_test_output net st) as (_ & -> & _).
    destruct (forward_outcome_line net) as (_ & _ & Hs).
    apply Forall_app. split; [exact IH | ].
    constructor; [ | constructor].
    destruct (snd (forward_outcome net)); try exact I. discriminate.
Qed.

(** X9. Every summary line on the console shows a received count that
    is a multiple of ten, and counters with forwarded + ignored at most
    received, also when other messages were received while the forwarder
    was waiting for its response. *)
Theorem summaries_show_multiples_of_ten (cfg : config) :
  (forall updates,
     Forall summary_in_order (console (run cfg updates))) /\
  (forall w, reachable cfg w -> Forall summary_in_order (console (now w))).
Proof.
  split.
  - intros updates.
    exact (proj2 (summaries_in_order_reachable (run_reachable cfg updates))).
  - intros w R. exact (proj2 (summaries_in_order_reachable R)).
Qed.

Lemma processMessage_replies (cfg : config) (t : jsstring) (net : network)
  (st : state) :
  replies (processMessage cfg t net st) = replies st.
Proof.
  rewrite processMessage_split.
  pose proof (start_processing_output cfg t st) as (Hs & _).
  destruct (start_processing cfg t st) as [st1 [ | ]]; simpl in *;
    [ | exact Hs].
  destruct (finish_processing_output net st1) as (-> & _). exact Hs.
Qed.

Lemma deliver_replies (cfg : config) (st : state) (u : message * network) :
  replies (deliver cfg st u) = replies st.
Proof.
  destruct u as [m net]. destruct (msg_text m) as [t | ] eqn:Ht.
  - rewrite (deliver_text cfg m net st Ht).
    destruct (onText_cases cfg (as_text_message m t) net st) as [-> | ->];
      [reflexivity | apply processMessage_replies].
  - rewrite (deliver_without_text cfg m net st Ht). reflexivity.
Qed.

(** X10. The program never replies: whatever messages arrive, commands
    included, the text handler registered first takes every one that has
    a text, so the handlers of the start, stats and test commands never
    run and no reply is ever sent. *)
Theorem program_never_replies (cfg : config)
  (updates : list (message * network)) :
  replies (program cfg updates) = [].
Proof.
  unfold program.
  assert (G : forall st,
    replies (fold_left (deliver cfg) updates st) = replies st).
  { induction updates as [ | u updates IH]; intros st; simpl.
    - reflexivity.
    - rewrite IH. apply deliver_replies. }
  rewrite G. reflexivity.
Qed.

(** X16. What holds of every run holds of the program: forwarded +
    ignored is at most received, only signals are sent, and, since no
    test command ever runs, the requests sent are exactly the messages
    received and not ignored. *)
Theorem program_sends_each_signal_once (cfg : config)
  (updates : list (message * network)) :
  (messagesForwarded (program cfg updates) +
   messagesIgnored (program cfg updates)
   <= messagesReceived (program cfg updates))%N /\
  sends_only_signals cfg (program cfg updates) /\
  messagesReceived (program cfg updates) =
    (messagesIgnored (program cfg updates) +
     N.of_nat (List.length (requests (program cfg updates))))%N.
Proof.
  pose proof (program_never_replies cfg updates) as Hr.
  destruct (program_is_a_run cfg updates) as (us & E).
  rewrite E in *. split; [ | split].
  - apply fold_handle_counted. unfold counted. simpl. lia.
  - exact (sends_only_signals_reachable (run_reachable cfg us)).
  - pose proof (every_message_accounted_reachable (run_reachable cfg us))
      as H.
    unfold every_message_accounted, count_replies in H. simpl in H.
    rewrite Hr in H. simpl in H. lia.
Qed.

(** *** The source-channel guard *)

Lemma processMessage_moves (cfg : config) (t : jsstring) (net : network)
  (st : state) :
  processMessage cfg t net st <> st.
Proof.
  intros E.
  destruct (processMessage_counters cfg t net st) as (Hr & _).
  rewrite E in Hr. lia.
Qed.

(** X11. The text handler drops a message exactly when a source channel
    is configured, the chat identity is rejected and the forward origin
    is absent or rejected; in every other case the message is processed
    and counted as received. *)
Theorem text_handler_drops_iff_guard_rejects (cfg : config)
  (m : text_message) (net : network) (st : state) :
  (onText cfg m net st = st <->
   SOURCE_CHANNEL_ID cfg <> [] /\
   chat_mismatch cfg m = true /\ forward_mismatch cfg m = true) /\
  (onText cfg m net st <> st ->
   onText cfg m net st = processMessage cfg (text m) net st /\
   messagesReceived (onText cfg m net st) = (messagesReceived st + 1)%N).
Proof.
  pose proof (@processMessage_moves cfg (text m) net st) as Hmove.
  pose proof (processMessage_counters cfg (text m) net st) as (Hr & _).
  unfold onText.
  destruct (SOURCE_CHANNEL_ID cfg) as [ | c src]; simpl;
    [ | destruct (chat_mismatch cfg m); [destruct (forward_mismatch cfg m) | ]];
    (split; [split | ]); try tauto; try congruence;
    try (intros (H1 & H2 & H3); congruence).
  repeat split; congruence.
Qed.

Lemma eqb_refl (s : jsstring) : JS.eqb s s = true.
Proof. apply eqb_eq. reflexivity. Qed.




(** X13. With a configured identity that starts with -100, a message
    from the chat whose identity is the configured one with -100
    shortened to - passes the guard and is processed, whatever its
    forward origin. *)
Theorem short_form_chat_is_processed (cfg : config) (m : text_message)
  (net : network) (st : state) :
  JS.starts_with (units "-100") (SOURCE_CHANNEL_ID cfg) = true ->
  JS.toString (chat_id m) = units "-" ++ skipn 4 (SOURCE_CHANNEL_ID cfg) ->
  onText cfg m net st = processMessage cfg (text m) net st.
Proof.
  intros Hpre Hid.
  assert (Hchat : chat_mismatch cfg m = false).
  { unfold chat_mismatch. rewrite (@replace_prefix _ _ _ Hpre), Hid.
    change (List.length (units "-100")) with 4. rewrite eqb_refl.
    apply andb_false_r. }
  unfold onText. rewrite Hchat.
  destruct (JS.truthy (SOURCE_CHANNEL_ID cfg)); reflexivity.
Qed.

Lemma short_form_chat_is_processed_witness :
  onText restricted_config short_form_chat Unreachable initial_state =
  processMessage restricted_config (text short_form_chat) Unreachable
    initial_state.
Proof.
  apply (short_form_chat_is_processed restricted_config short_form_chat
           Unreachable initial_state).
  - vm_compute. reflexivity.
  - vm_compute. reflexivity.
Defined.

(* ================================================================== *)
(** ** Start-up *)

Lemma or_else_truthy (v : option jsstring) (fallback : jsstring) :
  v = None \/ v = Some [] -> or_else v fallback = fallback.
Proof. intros [-> | ->]; reflexivity. Qed.

(** X14. The process exits with code 1 exactly when TELEGRAM_BOT_TOKEN
    is unset or set to the empty string, or when the launch of the bot
    is rejected; otherwise it runs with the configuration read from the
    environment. *)
Theorem boot_exits_without_token_or_launch (env : environment)
  (launch : launch_outcome) :
  (boot env launch = Exits 1 <->
   (getenv env "TELEGRAM_BOT_TOKEN" = None \/
    getenv env "TELEGRAM_BOT_TOKEN" = Some []) \/
   launch = LaunchFailed) /\
  (boot env launch <> Exits 1 ->
   boot env launch = Starts (configuration env)).
Proof.
  unfold boot, BOT_TOKEN.
  destruct (getenv env "TELEGRAM_BOT_TOKEN") as [[ | c token] | ],
    launch; simpl; (split; [split | ]); auto; try congruence;
    intros [[H | H] | H]; discriminate.
Qed.

(** X15. When TELEGRAM_SOURCE_CHANNEL_ID is unset or empty the bot is
    unrestricted: every text message, from any chat and with any forward
    origin, is processed. *)
Theorem unset_source_channel_accepts_every_chat (env : environment)
  (m : text_message) (net : network) (st : state) :
  getenv env "TELEGRAM_SOURCE_CHANNEL_ID" = None \/
  getenv env "TELEGRAM_SOURCE_CHANNEL_ID" = Some [] ->
  onText (configuration env) m net st =
  processMessage (configuration env) (text m) net st.
Proof.
  intros H. unfold onText, configuration. simpl.
  rewrite (or_else_truthy [] H). reflexivity.
Qed.

Lemma unset_source_channel_accepts_every_chat_witness :
  onText (configuration [("TELEGRAM_BOT_TOKEN"%string, units "123:abc");
                         ("TELEGRAM_SOURCE_CHANNEL_ID"%string, [])])
    stranger Unreachable initial_state =
  processMessage
    (configuration [("TELEGRAM_BOT_TOKEN"%string, units "123:abc");
                    ("TELEGRAM_SOURCE_CHANNEL_ID"%string, [])])
    (text stranger) Unreachable initial_state.
Proof.
  apply (unset_source_channel_accepts_every_chat
           [("TELEGRAM_BOT_TOKEN"%string, units "123:abc");
            ("TELEGRAM_SOURCE_CHANNEL_ID"%string, [])]
           stranger Unreachable initial_state).
  right. reflexivity.
Defined.
